(** * Verification of the command protocol layer of [stream/handler.go]

    The development embeds the parser ([parseRawMessage]), the six typed
    request builders ([NewPushRequest] ... [NewSetRequest]) and the
    dispatcher ([Handler.Process]) of the Go source as Rocq functions and
    proves properties of the wire protocol about them.

    Go strings are byte sequences; they are modelled by [string] (a list of
    [ascii] bytes).  A Go function returning [(T, error)] is modelled by a
    function into [result T]; an index out of range is the outcome
    [Panic]. *)

From Stdlib Require Import ZArith Ascii String.
From stdpp Require Import base strings list gmap.

Local Open Scope string_scope.
Local Open Scope Z_scope.

(** ** Errors and results *)

(** The two causes wrapped by [*strconv.NumError]. *)
Inductive NumErr : Type :=
| ErrSyntax
| ErrRange.

(** The error values that the functions of [handler.go] can return: its two
    package-level sentinels and the [*strconv.NumError{Func, Num, Err}]
    produced by [strconv.Atoi]. *)
Inductive error : Type :=
| ErrUnknownCmd
| ErrIncorrectCmd
| NumError (Func Num : string) (Cause : NumErr).

(** Outcome of a Go call with signature [(A, error)]: a value with a nil
    error, a non-nil error, or a run-time panic. *)
Inductive result (A : Type) : Type :=
| Ok (a : A)
| Err (e : error)
| Panic.

Arguments Ok {A} a.
Arguments Err {A} e.
Arguments Panic {A}.

#[global] Instance result_ret : MRet result := fun A a => Ok a.

#[global] Instance result_bind : MBind result := fun A B k r =>
  match r with
  | Ok a => k a
  | Err e => Err e
  | Panic => Panic
  end.

(** The literal acknowledgment of a successful operation. *)
Definition ResponseOK : string := "ok".

(** Slice indexing [s[i]]: Go panics when [i] is out of range. *)
Definition index {A : Type} (s : list A) (i : nat) : result A :=
  match s !! i with
  | Some x => Ok x
  | None => Panic
  end.

(** ** The Go standard library functions used by the handler *)

Module strings.

(** [strings.SplitN] and [strings.Split] are [genSplit(s, sep, 0, n)] and
    [genSplit(s, sep, 0, -1)].  For a non-empty separator [genSplit] is
<<
    if n == 0 { return nil }
    if n < 0 { n = Count(s, sep) + 1 }
    if n > len(s)+1 { n = len(s) + 1 }
    a := make([]string, n); n--; i := 0
    for i < n {
        m := Index(s, sep)
        if m < 0 { break }
        a[i] = s[:m]; s = s[m+len(sep):]; i++
    }
    a[i] = s
    return a[:i+1]
>>
    The handler only ever passes the one-byte separator [" "], so the
    separator is a byte here. *)

(** [strings.Count(s, sep)] for a one-byte separator. *)
Fixpoint Count (s : string) (sep : ascii) : nat :=
  match s with
  | EmptyString => 0%nat
  | String c s' =>
      if decide (c = sep) then S (Count s' sep) else Count s' sep
  end.

(** One round of the loop of [genSplit]: [m := Index(s, sep)], and when
    [m >= 0] the pair [(s[:m], s[m+len(sep):])]. *)
Fixpoint cut (s : string) (sep : ascii) : option (string * string) :=
  match s with
  | EmptyString => None
  | String c s' =>
      if decide (c = sep) then Some (EmptyString, s')
      else match cut s' sep with
           | Some (a, b) => Some (String c a, b)
           | None => None
           end
  end.

(** The loop [for i < n { ... }; a[i] = s] of [genSplit], with [n] the
    number of cuts still allowed. *)
Fixpoint splitLoop (s : string) (sep : ascii) (n : nat) : list string :=
  match n with
  | O => [s]
  | S n' =>
      match cut s sep with
      | None => [s]
      | Some (a, b) => a :: splitLoop b sep n'
      end
  end.

(** [genSplit(s, sep, 0, n)] for a non-empty (one-byte) separator. *)
Definition SplitN (s : string) (sep : ascii) (n : Z) : list string :=
  if n =? 0 then []
  else
    let n1 := if n <? 0 then S (Count s sep) else Z.to_nat n in
    let n2 := if (S (String.length s) <? n1)%nat
              then S (String.length s) else n1 in
    splitLoop s sep (n2 - 1).

Definition Split (s : string) (sep : ascii) : list string :=
  SplitN s sep (-1).

(** [strings.Join(elems, sep)], used to state properties of [Split]. *)
Fixpoint Join (elems : list string) (sep : ascii) : string :=
  match elems with
  | [] => EmptyString
  | [e] => e
  | e :: rest => e +:+ String sep (Join rest sep)
  end.

End strings.

Module strconv.

(** [strconv.Atoi(s)] is [ParseInt(s, 10, 0)] (with a fast path of the
    same result for short strings): the empty string is a syntax error; a
    leading [+] or [-] is stripped; [ParseUint] reads the rest, where the
    empty string or a byte that is no decimal digit is a syntax error and
    a value above [1<<64 - 1] a range error; a magnitude that does not
    fit [int] is a range error.  The error is a [*NumError] with [Func]
    ["Atoi"] and [Num] the whole input. *)

(** Number of bits of Go's [int] on the 64-bit platforms. *)
Definition intSize : Z := 64.
Definition maxUint64 : Z := 2 ^ 64 - 1.

Definition digit (c : ascii) : option Z :=
  let n := Z.of_nat (nat_of_ascii c) in
  if (48 <=? n) && (n <=? 57) then Some (n - 48) else None.

(** The digit loop of [ParseUint(s, 10, 64)]: a byte that is not a
    decimal digit is a syntax error, a value above [maxUint64] a range
    error, whichever is met first. *)
Fixpoint parseDigits (s : string) (acc : Z) : NumErr + Z :=
  match s with
  | EmptyString => inr acc
  | String c s' =>
      match digit c with
      | None => inl ErrSyntax
      | Some d =>
          let acc' := acc * 10 + d in
          if maxUint64 <? acc' then inl ErrRange else parseDigits s' acc'
      end
  end.

Definition ParseUint (s : string) : NumErr + Z :=
  match s with
  | EmptyString => inl ErrSyntax
  | _ => parseDigits s 0
  end.

(** [strconv.Atoi(s)], that is [ParseInt(s, 10, 0)] with the error's
    [Func] set to ["Atoi"]: optional sign, decimal digits, and the
    result must fit Go's [int]. *)
Definition Atoi (s : string) : result Z :=
  match s with
  | EmptyString => Err (NumError "Atoi" s ErrSyntax)
  | String c s' =>
      let neg := bool_decide (c = "-"%char) in
      let body :=
        if bool_decide (c = "+"%char) || neg then s' else s in
      match ParseUint body with
      | inl e => Err (NumError "Atoi" s e)
      | inr un =>
          let cutoff := 2 ^ (intSize - 1) in
          if negb neg && (cutoff <=? un) then
            Err (NumError "Atoi" s ErrRange)
          else if neg && (cutoff <? un) then
            Err (NumError "Atoi" s ErrRange)
          else Ok (if neg then - un else un)
      end
  end.

End strconv.

(** ** Package [client]: the command names *)

Module client.

(** Modelled from the spec: the constants [client.CmdPush] ...
    [client.CmdSet] live in the package [client], which is not part of
    the sources at hand; the wire protocol of the specification fixes
    their values as the verbs [push], [pull], [get], [status],
    [prepare], [accept] and [set]. *)
Definition CmdPush : string := "push".
Definition CmdPull : string := "pull".
Definition CmdGet : string := "get".
Definition CmdStatus : string := "status".
Definition CmdPrepare : string := "prepare".
Definition CmdAccept : string := "accept".
Definition CmdSet : string := "set".

End client.

(** ** The request model of [handler.go] *)

(** [availableCmds = map[string]struct{}{...}]: a map used as a set. *)
Definition availableCmds : gset string :=
  {[ client.CmdPush; client.CmdPull; client.CmdGet; client.CmdStatus;
     client.CmdPrepare; client.CmdAccept; client.CmdSet ]}.

(** A [context.Context]: the nil context of a freshly parsed request, or
    an opaque handle supplied by the caller. *)
Inductive Context : Type :=
| ctx_nil
| ctx_handle (id : nat).

Record Request : Type := mkRequest {
  ctx : Context;
  cmd : string;
  args : list string
}.

Definition space : ascii := " "%char.

Definition parseRawMessage (message : string) : result Request :=
  let parsed := strings.SplitN message space 2 in
  if bool_decide (length parsed = 0%nat) then Err ErrIncorrectCmd
  else
    cmd ← index parsed 0;
    rawArgs ← (if bool_decide (length parsed = 2%nat)
               then index parsed 1 else Ok EmptyString);
    if negb (bool_decide (cmd ∈ availableCmds)) then Err ErrIncorrectCmd
    else
      let args := strings.Split rawArgs space in
      Ok {| ctx := ctx_nil; cmd := cmd; args := args |}.

(** ** Typed requests and their builders *)

Record GetRequest : Type := mkGetRequest {
  GetRequest_Request : Request;
  GetRequest_n : Z
}.

Definition NewGetRequest (request : Request) : result GetRequest :=
  if bool_decide (cmd request ≠ client.CmdGet) then Err ErrIncorrectCmd
  else if bool_decide (length (args request) = 0%nat) then Err ErrIncorrectCmd
  else
    a0 ← index (args request) 0;
    n ← strconv.Atoi a0;
    Ok {| GetRequest_Request := request; GetRequest_n := n |}.

Record PullRequest : Type := mkPullRequest {
  PullRequest_Request : Request;
  PullRequest_n : Z
}.

Definition NewPullRequest (request : Request) : result PullRequest :=
  if bool_decide (cmd request ≠ client.CmdPull) then Err ErrIncorrectCmd
  else if bool_decide (length (args request) = 0%nat) then Err ErrIncorrectCmd
  else
    a0 ← index (args request) 0;
    n ← strconv.Atoi a0;
    Ok {| PullRequest_Request := request; PullRequest_n := n |}.

Record PushRequest : Type := mkPushRequest {
  PushRequest_Request : Request;
  PushRequest_v : string
}.

Definition NewPushRequest (request : Request) : result PushRequest :=
  if bool_decide (cmd request ≠ client.CmdPush) then Err ErrIncorrectCmd
  else if bool_decide (length (args request) = 0%nat) then Err ErrIncorrectCmd
  else
    a0 ← index (args request) 0;
    Ok {| PushRequest_Request := request; PushRequest_v := a0 |}.

Record PrepareRequest : Type := mkPrepareRequest {
  PrepareRequest_Request : Request;
  PrepareRequest_n : Z
}.

Definition NewPrepareRequest (request : Request) : result PrepareRequest :=
  if bool_decide (cmd request ≠ client.CmdPrepare) then Err ErrIncorrectCmd
  else if bool_decide (length (args request) = 0%nat) then Err ErrIncorrectCmd
  else
    a0 ← index (args request) 0;
    n ← strconv.Atoi a0;
    Ok {| PrepareRequest_Request := request; PrepareRequest_n := n |}.

Record AcceptRequest : Type := mkAcceptRequest {
  AcceptRequest_Request : Request;
  AcceptRequest_n : Z;
  AcceptRequest_id : string;
  AcceptRequest_v : string
}.

Definition NewAcceptRequest (request : Request) : result AcceptRequest :=
  if bool_decide (cmd request ≠ client.CmdAccept) then Err ErrIncorrectCmd
  else if bool_decide (length (args request) ≠ 3%nat) then Err ErrIncorrectCmd
  else
    a0 ← index (args request) 0;
    n ← strconv.Atoi a0;
    a1 ← index (args request) 1;
    a2 ← index (args request) 2;
    Ok {| AcceptRequest_Request := request; AcceptRequest_n := n;
          AcceptRequest_id := a1; AcceptRequest_v := a2 |}.

Record SetRequest : Type := mkSetRequest {
  SetRequest_Request : Request;
  SetRequest_n : Z;
  SetRequest_id : string;
  SetRequest_v : string
}.

Definition NewSetRequest (request : Request) : result SetRequest :=
  if bool_decide (cmd request ≠ client.CmdSet) then Err ErrIncorrectCmd
  else if bool_decide (length (args request) ≠ 3%nat) then Err ErrIncorrectCmd
  else
    a0 ← index (args request) 0;
    n ← strconv.Atoi a0;
    a1 ← index (args request) 1;
    a2 ← index (args request) 2;
    Ok {| SetRequest_Request := request; SetRequest_n := n;
          SetRequest_id := a1; SetRequest_v := a2 |}.

(** ** The dispatcher *)

(** The inbound message source, interface [ServerRequest]. *)
Record ServerRequest : Type := mkServerRequest {
  Message : string;
  Address : string;
  Name : string
}.

(** One invocation of a semantic operation of the handler. *)
Inductive Call : Type :=
| CallPush (r : PushRequest)
| CallGet (r : GetRequest)
| CallPull (r : PullRequest)
| CallStatus
| CallSet (r : SetRequest)
| CallPrepare (r : PrepareRequest)
| CallAccept (r : AcceptRequest).

(** The command a semantic operation stands for. *)
Definition Call_cmd (c : Call) : string :=
  match c with
  | CallPush _ => client.CmdPush
  | CallGet _ => client.CmdGet
  | CallPull _ => client.CmdPull
  | CallStatus => client.CmdStatus
  | CallSet _ => client.CmdSet
  | CallPrepare _ => client.CmdPrepare
  | CallAccept _ => client.CmdAccept
  end.

Section Dispatcher.

(** [World] is the state of everything the semantic operations can
    touch (the consensus engine, the log, the response sinks);
    [ServerResponse] is the response sink handed to [Process]. *)
Variables (World ServerResponse : Type).

(** An effectful Go call returning [error]: [Ok tt] is the nil error. *)
Definition Effect : Type := World -> result unit * World.

(** The seven methods [h.Push] ... [h.Accept] of [*Handler].  Their
    bodies are not part of [handler.go]; [Process] only calls them, so
    they are taken as they come.  ([Set] is a reserved word, hence
    [Set_].) *)
Record Handler : Type := mkHandler {
  Push : PushRequest -> ServerResponse -> Effect;
  Get : GetRequest -> ServerResponse -> Effect;
  Pull : PullRequest -> ServerResponse -> Effect;
  Status : ServerResponse -> Effect;
  Set_ : SetRequest -> ServerResponse -> Effect;
  Prepare : PrepareRequest -> ServerResponse -> Effect;
  Accept : AcceptRequest -> ServerResponse -> Effect
}.

(** [request, err := NewXRequest(...); if err != nil { return err };
    return h.X(request, response)]. *)
Definition orReturn {A : Type} (r : result A) (k : A -> Effect) : Effect :=
  fun w =>
    match r with
    | Ok a => k a w
    | Err e => (Err e, w)
    | Panic => (Panic, w)
    end.

(** [Process]: parse the line, store the caller's context in the parsed
    request ([parsed.ctx = ctx]), then the [switch parsed.cmd], its cases
    in the order of the source and its [default] last. *)
Definition Process (h : Handler) (ctx0 : Context) (message : ServerRequest)
    (response : ServerResponse) : Effect :=
  orReturn (parseRawMessage (Message message)) (fun parsed0 =>
    let parsed := {| ctx := ctx0; cmd := cmd parsed0; args := args parsed0 |} in
    if decide (cmd parsed = client.CmdPush) then
      orReturn (NewPushRequest parsed) (fun request => Push h request response)
    else if decide (cmd parsed = client.CmdGet) then
      orReturn (NewGetRequest parsed) (fun request => Get h request response)
    else if decide (cmd parsed = client.CmdPull) then
      orReturn (NewPullRequest parsed) (fun request => Pull h request response)
    else if decide (cmd parsed = client.CmdStatus) then
      Status h response
    else if decide (cmd parsed = client.CmdSet) then
      orReturn (NewSetRequest parsed) (fun request => Set_ h request response)
    else if decide (cmd parsed = client.CmdPrepare) then
      orReturn (NewPrepareRequest parsed)
               (fun request => Prepare h request response)
    else if decide (cmd parsed = client.CmdAccept) then
      orReturn (NewAcceptRequest parsed)
               (fun request => Accept h request response)
    else fun w => (Err ErrUnknownCmd, w)).

End Dispatcher.

Arguments Push {World ServerResponse} h.
Arguments Get {World ServerResponse} h.
Arguments Pull {World ServerResponse} h.
Arguments Status {World ServerResponse} h.
Arguments Set_ {World ServerResponse} h.
Arguments Prepare {World ServerResponse} h.
Arguments Accept {World ServerResponse} h.
Arguments mkHandler {World ServerResponse}.
Arguments orReturn {World A} r k.
Arguments Process {World ServerResponse} h ctx0 message response.

(** Running one semantic operation of a handler. *)
Definition invoke {World ServerResponse : Type}
    (h : Handler World ServerResponse) (c : Call) (response : ServerResponse)
    : Effect World :=
  match c with
  | CallPush r => Push h r response
  | CallGet r => Get h r response
  | CallPull r => Pull h r response
  | CallStatus => Status h response
  | CallSet r => Set_ h r response
  | CallPrepare r => Prepare h r response
  | CallAccept r => Accept h r response
  end.

(** A handler instrumented to record, in order, every semantic operation
    that is invoked on it, next to the world of the handler it wraps. *)
Definition record_call {World : Type} (c : Call) (op : Effect World)
    : Effect (World * list Call) :=
  fun '(w, calls) => let '(r, w') := op w in (r, (w', (calls ++ [c])%list)).

Definition traced {World ServerResponse : Type}
    (h : Handler World ServerResponse)
    : Handler (World * list Call) ServerResponse :=
  {| Push := fun r resp => record_call (CallPush r) (Push h r resp);
     Get := fun r resp => record_call (CallGet r) (Get h r resp);
     Pull := fun r resp => record_call (CallPull r) (Pull h r resp);
     Status := fun resp => record_call CallStatus (Status h resp);
     Set_ := fun r resp => record_call (CallSet r) (Set_ h r resp);
     Prepare := fun r resp => record_call (CallPrepare r) (Prepare h r resp);
     Accept := fun r resp => record_call (CallAccept r) (Accept h r resp) |}.

(** A handler whose operations succeed and do nothing else. *)
Definition idle : Handler unit unit :=
  {| Push := fun _ _ w => (Ok tt, w);
     Get := fun _ _ w => (Ok tt, w);
     Pull := fun _ _ w => (Ok tt, w);
     Status := fun _ w => (Ok tt, w);
     Set_ := fun _ _ w => (Ok tt, w);
     Prepare := fun _ _ w => (Ok tt, w);
     Accept := fun _ _ w => (Ok tt, w) |}.

Definition msg (line : string) : ServerRequest :=
  {| Message := line; Address := "127.0.0.1:1"; Name := "client" |}.

(** ** Notions used by the statements *)

(** The build step of [Process]: the typed request that the branch of the
    request's command builds, as the semantic operation it is handed to.
    The status branch builds nothing and calls [h.Status] directly. *)
Definition buildCall (request : Request) : result Call :=
  if decide (cmd request = client.CmdPush) then
    r ← NewPushRequest request; Ok (CallPush r)
  else if decide (cmd request = client.CmdGet) then
    r ← NewGetRequest request; Ok (CallGet r)
  else if decide (cmd request = client.CmdPull) then
    r ← NewPullRequest request; Ok (CallPull r)
  else if decide (cmd request = client.CmdStatus) then
    Ok CallStatus
  else if decide (cmd request = client.CmdSet) then
    r ← NewSetRequest request; Ok (CallSet r)
  else if decide (cmd request = client.CmdPrepare) then
    r ← NewPrepareRequest request; Ok (CallPrepare r)
  else if decide (cmd request = client.CmdAccept) then
    r ← NewAcceptRequest request; Ok (CallAccept r)
  else Err ErrUnknownCmd.

(** A string without the space byte. *)
Definition spaceless (t : string) : Prop := strings.Count t space = 0%nat.

(** The command token of a line: what precedes its first space, the whole
    line when it has none. *)
Definition leadingToken (message : string) : string :=
  match strings.cut message space with
  | Some (a, _) => a
  | None => message
  end.

(** What follows the first space of a line. *)
Definition remainder (message : string) : string :=
  match strings.cut message space with
  | Some (_, b) => b
  | None => EmptyString
  end.

(** The horizontal tab, byte 9. *)
Definition tab : ascii := ascii_of_nat 9.

(** The bytes Go's [unicode.IsSpace] counts as white space among the
    ASCII ones: tab, line feed, vertical tab, form feed, carriage return
    and space. *)
Definition is_whitespace (c : ascii) : bool :=
  bool_decide (nat_of_ascii c ∈ [9; 10; 11; 12; 13; 32]%nat).

(** The string of [k] spaces. *)
Fixpoint spaces (k : nat) : string :=
  match k with
  | O => EmptyString
  | S k' => String space (spaces k')
  end.

(** The base request embedded in the typed request of a semantic
    operation; the Status operation takes none. *)
Definition Call_request (c : Call) : option Request :=
  match c with
  | CallPush r => Some (PushRequest_Request r)
  | CallGet r => Some (GetRequest_Request r)
  | CallPull r => Some (PullRequest_Request r)
  | CallStatus => None
  | CallSet r => Some (SetRequest_Request r)
  | CallPrepare r => Some (PrepareRequest_Request r)
  | CallAccept r => Some (AcceptRequest_Request r)
  end.

(** The strings that reach a semantic operation as opaque values: [v]
    for Push, [id] and [v] for Accept and Set. *)
Definition Call_values (c : Call) : list string :=
  match c with
  | CallPush r => [PushRequest_v r]
  | CallSet r => [SetRequest_id r; SetRequest_v r]
  | CallAccept r => [AcceptRequest_id r; AcceptRequest_v r]
  | _ => []
  end.

(** * Properties *)

(** ** The model on concrete lines *)

Example parse_push_val1 :
  parseRawMessage "push val1"
  = Ok {| ctx := ctx_nil; cmd := "push"; args := ["val1"] |}.
Proof. vm_compute. reflexivity. Qed.

Example parse_empty : parseRawMessage "" = Err ErrIncorrectCmd.
Proof. vm_compute. reflexivity. Qed.

Example parse_foo : parseRawMessage "foo bar" = Err ErrIncorrectCmd.
Proof. vm_compute. reflexivity. Qed.

Example parse_status :
  parseRawMessage "status"
  = Ok {| ctx := ctx_nil; cmd := "status"; args := [""] |}.
Proof. vm_compute. reflexivity. Qed.

Example atoi_examples :
  strconv.Atoi "42" = Ok 42 /\ strconv.Atoi "-7" = Ok (-7)
  /\ strconv.Atoi "+3" = Ok 3
  /\ strconv.Atoi "" = Err (NumError "Atoi" "" ErrSyntax)
  /\ strconv.Atoi "-" = Err (NumError "Atoi" "-" ErrSyntax)
  /\ strconv.Atoi "1x" = Err (NumError "Atoi" "1x" ErrSyntax)
  /\ strconv.Atoi "9223372036854775807" = Ok 9223372036854775807
  /\ strconv.Atoi "9223372036854775808"
     = Err (NumError "Atoi" "9223372036854775808" ErrRange)
  /\ strconv.Atoi "-9223372036854775808" = Ok (-9223372036854775808).
Proof. vm_compute. repeat split; reflexivity. Qed.

Example process_status_args :
  Process (traced idle) ctx_nil (msg "status foo bar") tt (tt, [])
  = (Ok tt, (tt, [CallStatus])).
Proof. vm_compute. reflexivity. Qed.

Example process_accept_double_space :
  Process (traced idle) ctx_nil (msg "accept 1  2 3") tt (tt, [])
  = (Err ErrIncorrectCmd, (tt, [])).
Proof. vm_compute. reflexivity. Qed.

Example process_set_ok :
  Process (traced idle) (ctx_handle 7) (msg "set 4 id val") tt (tt, [])
  = (Ok tt, (tt, [CallSet {| SetRequest_Request :=
                               {| ctx := ctx_handle 7; cmd := "set";
                                  args := ["4"; "id"; "val"] |};
                             SetRequest_n := 4; SetRequest_id := "id";
                             SetRequest_v := "val" |}])).
Proof. vm_compute. reflexivity. Qed.

(** ** Splitting *)

Section SplitFacts.

Variable sep : ascii.

Lemma Count_app (a b : string) :
  strings.Count (a +:+ b) sep
  = (strings.Count a sep + strings.Count b sep)%nat.
Proof.
  induction a as [|c a IH]; simpl; [done|].
  case_decide; rewrite IH; lia.
Qed.

Lemma Count_le_length (s : string) :
  (strings.Count s sep <= String.length s)%nat.
Proof.
  induction s as [|c s IH]; simpl; [lia|].
  case_decide; lia.
Qed.

Lemma cut_None (s : string) :
  strings.Count s sep = 0%nat -> strings.cut s sep = None.
Proof.
  induction s as [|c s IH]; simpl; [done|].
  case_decide; [done|]. intros E. by rewrite IH.
Qed.

Lemma cut_Some (s a b : string) :
  strings.cut s sep = Some (a, b) ->
  s = a +:+ String sep b /\ strings.Count a sep = 0%nat.
Proof.
  revert a. induction s as [|c s IH]; simpl; intros a; [done|].
  case_decide as Hc.
  - intros [= <- <-]. by subst c.
  - destruct (strings.cut s sep) as [[a' b']|] eqn:E; [|done].
    intros [= <- <-]. destruct (IH a' eq_refl) as [-> Ha].
    split; [done|]. simpl. by rewrite decide_False.
Qed.

Lemma cut_app (t r : string) :
  strings.Count t sep = 0%nat ->
  strings.cut (t +:+ String sep r) sep = Some (t, r).
Proof.
  induction t as [|c t IH]; simpl.
  - intros _. by rewrite decide_True.
  - case_decide; [done|]. intros E. by rewrite IH.
Qed.

Lemma cut_is_None (s : string) :
  strings.cut s sep = None -> strings.Count s sep = 0%nat.
Proof.
  induction s as [|c s IH]; simpl; [done|].
  case_decide; [done|].
  destruct (strings.cut s sep) as [[a b]|]; [done|]. auto.
Qed.

(** [SplitN(s, sep, 2)] cuts at the first separator, if there is one. *)
Lemma SplitN_2 (s : string) :
  strings.SplitN s sep 2
  = match strings.cut s sep with
    | Some (a, b) => [a; b]
    | None => [s]
    end.
Proof.
  unfold strings.SplitN.
  change (2 =? 0) with false. change (2 <? 0) with false.
  change (Z.to_nat 2) with 2%nat. cbv zeta iota.
  destruct s as [|c s]; [done|].
  replace (S (String.length (String c s)) <? 2)%nat with false
    by (symmetry; apply Nat.ltb_ge; simpl; lia).
  change (2 - 1)%nat with 1%nat. unfold strings.splitLoop.
  by destruct (strings.cut (String c s) sep) as [[a b]|].
Qed.

(** [Split(s, sep)] cuts at every separator. *)
Lemma Split_unfold (s : string) :
  strings.Split s sep = strings.splitLoop s sep (strings.Count s sep).
Proof.
  unfold strings.Split, strings.SplitN.
  change (-1 =? 0) with false. change (-1 <? 0) with true. cbv zeta iota.
  replace (S (String.length s) <? S (strings.Count s sep))%nat with false.
  - f_equal. lia.
  - symmetry. apply Nat.ltb_ge. pose proof (Count_le_length s). lia.
Qed.

Lemma Split_sepfree (t : string) :
  strings.Count t sep = 0%nat -> strings.Split t sep = [t].
Proof. intros E. by rewrite Split_unfold, E. Qed.

Lemma Split_cons (t r : string) :
  strings.Count t sep = 0%nat ->
  strings.Split (t +:+ String sep r) sep = t :: strings.Split r sep.
Proof.
  intros E. rewrite !Split_unfold, Count_app, E. simpl.
  rewrite decide_True by done. simpl.
  by rewrite (cut_app t r E).
Qed.

Lemma Split_nonempty (s : string) : (1 <= length (strings.Split s sep))%nat.
Proof.
  rewrite Split_unfold.
  destruct (strings.Count s sep) as [|n]; simpl; [lia|].
  destruct (strings.cut s sep) as [[a b]|]; simpl; lia.
Qed.

(** Splitting inverts joining separator-free elements. *)
Lemma Split_Join (l : list string) :
  l <> [] ->
  Forall (fun t => strings.Count t sep = 0%nat) l ->
  strings.Split (strings.Join l sep) sep = l.
Proof.
  induction l as [|t l IH]; [done|]. intros _ Hall.
  apply Forall_cons in Hall as [Ht Hl].
  destruct l as [|t' l]; simpl.
  - by apply Split_sepfree.
  - rewrite Split_cons by done. f_equal. by apply IH.
Qed.

End SplitFacts.

(** ** The parser *)

Lemma availableCmds_elem (c : string) :
  c ∈ availableCmds <->
  c = "push" \/ c = "pull" \/ c = "get" \/ c = "status"
  \/ c = "prepare" \/ c = "accept" \/ c = "set".
Proof.
  unfold availableCmds, client.CmdPush, client.CmdPull, client.CmdGet,
    client.CmdStatus, client.CmdPrepare, client.CmdAccept, client.CmdSet.
  rewrite !elem_of_union, !elem_of_singleton. tauto.
Qed.

Lemma availableCmds_spaceless (c : string) :
  c ∈ availableCmds -> spaceless c.
Proof.
  rewrite availableCmds_elem.
  intros [->|[->|[->|[->|[->|[->| ->]]]]]]; reflexivity.
Qed.

(** A line is its command token alone, or its command token, a space and
    its remainder; the command token has no space. *)
Lemma leadingToken_remainder (message : string) :
  spaceless (leadingToken message)
  /\ (message = leadingToken message /\ remainder message = EmptyString
      \/ message = leadingToken message +:+ String space (remainder message)).
Proof.
  unfold leadingToken, remainder, spaceless.
  destruct (strings.cut message space) as [[a b]|] eqn:E.
  - apply cut_Some in E as [-> Ha]. auto.
  - apply cut_is_None in E. auto.
Qed.

Lemma parseRawMessage_unfold (message : string) :
  parseRawMessage message
  = if bool_decide (leadingToken message ∈ availableCmds)
    then Ok {| ctx := ctx_nil; cmd := leadingToken message;
               args := strings.Split (remainder message) space |}
    else Err ErrIncorrectCmd.
Proof.
  unfold parseRawMessage, leadingToken, remainder.
  rewrite SplitN_2.
  destruct (strings.cut message space) as [[a b]|]; simpl;
    by case_bool_decide.
Qed.

Lemma parseRawMessage_token (token rest : string) :
  token ∈ availableCmds ->
  parseRawMessage (token +:+ String space rest)
  = Ok {| ctx := ctx_nil; cmd := token; args := strings.Split rest space |}.
Proof.
  intros Hin. rewrite parseRawMessage_unfold. unfold leadingToken, remainder.
  rewrite (cut_app space token rest (availableCmds_spaceless _ Hin)).
  by rewrite bool_decide_true.
Qed.

Lemma parseRawMessage_bare (token : string) :
  token ∈ availableCmds ->
  parseRawMessage token
  = Ok {| ctx := ctx_nil; cmd := token; args := [EmptyString] |}.
Proof.
  intros Hin. rewrite parseRawMessage_unfold. unfold leadingToken, remainder.
  rewrite (cut_None space token (availableCmds_spaceless _ Hin)).
  by rewrite bool_decide_true.
Qed.

Lemma parseRawMessage_Ok (message : string) (r : Request) :
  parseRawMessage message = Ok r ->
  cmd r ∈ availableCmds /\ ctx r = ctx_nil
  /\ args r = strings.Split (remainder message) space.
Proof.
  rewrite parseRawMessage_unfold. case_bool_decide; [|done].
  by intros [= <-].
Qed.

(** C1, the behaviour of the code: a line whose leading token is not one of
    the seven commands is rejected by the parser with [ErrIncorrectCmd],
    the very error of the empty line, and never with [ErrUnknownCmd]; the
    two failures cannot be told apart by the caller. *)
Theorem parseRawMessage_unknown_token_is_incorrect_cmd (message : string) :
  leadingToken message ∉ availableCmds ->
  parseRawMessage message = Err ErrIncorrectCmd
  /\ parseRawMessage message = parseRawMessage EmptyString
  /\ parseRawMessage message <> Err ErrUnknownCmd.
Proof.
  intros Hnot. rewrite !parseRawMessage_unfold.
  rewrite bool_decide_false by done.
  rewrite bool_decide_false by (vm_compute; intros [=]).
  done.
Qed.

Lemma parseRawMessage_unknown_token_witness :
  (leadingToken "foo bar" ∉ availableCmds)
  /\ parseRawMessage "foo bar" = Err ErrIncorrectCmd
  /\ parseRawMessage "foo bar" = parseRawMessage EmptyString
  /\ parseRawMessage "foo bar" <> Err ErrUnknownCmd.
Proof.
  assert (H : leadingToken "foo bar" ∉ availableCmds)
    by (rewrite availableCmds_elem; vm_compute; intuition discriminate).
  exact (conj H (parseRawMessage_unknown_token_is_incorrect_cmd "foo bar" H)).
Defined.

(** C3, as stated, fails: a tab is a white-space boundary, yet the line
    [push<TAB>val1] is not split there into the command [push] and the
    argument sequence [["val1"]]; the parser takes the whole line for the
    command token and rejects it. *)
Lemma parseRawMessage_whitespace_counterexample :
  is_whitespace tab = true
  /\ parseRawMessage ("push" +:+ String tab "val1")
     <> Ok {| ctx := ctx_nil; cmd := "push"; args := ["val1"] |}
  /\ leadingToken ("push" +:+ String tab "val1")
     = "push" +:+ String tab "val1"
  /\ parseRawMessage ("push" +:+ String tab "val1") = Err ErrIncorrectCmd.
Proof.
  split; [reflexivity|]. split; [vm_compute; discriminate|].
  split; vm_compute; reflexivity.
Qed.

(** C3, amended: the parser cuts the line at its first space byte into the
    command token and the remainder, and cuts the remainder at every space
    byte into the arguments, in order: the line made of a command and one
    or more space-free arguments, joined by single spaces, parses to that
    command with exactly those arguments.  In particular ["push val1"]
    yields [push] with [["val1"]]. *)
Theorem parseRawMessage_splits_on_space (token : string) (l : list string) :
  token ∈ availableCmds -> l <> [] -> Forall spaceless l ->
  parseRawMessage (strings.Join (token :: l) space)
  = Ok {| ctx := ctx_nil; cmd := token; args := l |}.
Proof.
  intros Hin Hne Hall. destruct l as [|t l]; [done|].
  change (strings.Join (token :: t :: l) space)
    with (token +:+ String space (strings.Join (t :: l) space)).
  rewrite parseRawMessage_token by done.
  by rewrite Split_Join.
Qed.

Lemma parseRawMessage_splits_on_space_witness :
  parseRawMessage "push val1"
  = Ok {| ctx := ctx_nil; cmd := "push"; args := ["val1"] |}.
Proof.
  apply (parseRawMessage_splits_on_space "push" ["val1"]).
  - apply availableCmds_elem; auto.
  - discriminate.
  - repeat constructor.
Defined.

(** C4: a line that is a valid command with nothing after it, or with
    only the separating space after it, parses to that command with the
    argument sequence [[""]]: one argument, the empty string. *)
Theorem parseRawMessage_empty_remainder (token : string) :
  token ∈ availableCmds ->
  parseRawMessage token
  = Ok {| ctx := ctx_nil; cmd := token; args := [EmptyString] |}
  /\ parseRawMessage (token +:+ " ")
     = Ok {| ctx := ctx_nil; cmd := token; args := [EmptyString] |}.
Proof.
  intros Hin. split.
  - by apply parseRawMessage_bare.
  - change (token +:+ " ") with (token +:+ String space EmptyString).
    by rewrite parseRawMessage_token.
Qed.

Lemma parseRawMessage_empty_remainder_witness :
  parseRawMessage "status"
  = Ok {| ctx := ctx_nil; cmd := "status"; args := [EmptyString] |}
  /\ parseRawMessage "status "
     = Ok {| ctx := ctx_nil; cmd := "status"; args := [EmptyString] |}.
Proof.
  apply (parseRawMessage_empty_remainder "status").
  apply availableCmds_elem; auto 10.
Defined.

(** ** The typed request builders *)

Lemma Atoi_Err (s : string) (e : error) :
  strconv.Atoi s = Err e -> exists k, e = NumError "Atoi" s k.
Proof.
  unfold strconv.Atoi. destruct s as [|c s]; [intros [= <-]; eauto|].
  destruct (strconv.ParseUint _) as [k|un]; [intros [= <-]; eauto|].
  repeat case_match; intros [= <-]; eauto.
Qed.

Lemma Atoi_no_Panic (s : string) : strconv.Atoi s <> Panic.
Proof.
  unfold strconv.Atoi. destruct s as [|c s]; [done|].
  destruct (strconv.ParseUint _); [done|]. by repeat case_match.
Qed.

Lemma digit_bounds (c : ascii) (d : Z) :
  strconv.digit c = Some d -> 0 <= d <= 9.
Proof.
  unfold strconv.digit.
  destruct (48 <=? _) eqn:H1; [|done]. destruct (_ <=? 57) eqn:H2; [|done].
  simpl. intros [= <-]. lia.
Qed.

Lemma parseDigits_nonneg (s : string) (acc n : Z) :
  0 <= acc -> strconv.parseDigits s acc = inr n -> 0 <= n.
Proof.
  revert acc. induction s as [|c s IH]; simpl; intros acc Hacc.
  - by intros [= <-].
  - destruct (strconv.digit c) as [d|] eqn:Hd; [|done].
    apply digit_bounds in Hd. case_match; [done|]. apply IH. lia.
Qed.

(** An integer read by [strconv.Atoi] fits Go's 64-bit [int]. *)
Lemma Atoi_range (s : string) (n : Z) :
  strconv.Atoi s = Ok n -> - 2 ^ 63 <= n < 2 ^ 63.
Proof.
  unfold strconv.Atoi. destruct s as [|c s]; [done|].
  destruct (strconv.ParseUint _) as [k|un] eqn:Hu; [done|].
  assert (0 <= un) as Hun.
  { revert Hu. unfold strconv.ParseUint. case_match; [done|].
    by apply parseDigits_nonneg. }
  change (2 ^ (strconv.intSize - 1)) with (2 ^ 63).
  destruct (bool_decide (c = "-"%char)); simpl;
    repeat case_match; try done; intros [= <-]; lia.
Qed.

(** Unfolding a builder on a request: the tests on the command and on the
    number of arguments become [bool_decide]s to rewrite. *)
Ltac builder_cmd_ok :=
  rewrite (bool_decide_false (_ ≠ _)) by (intros Hx; by apply Hx).

Ltac builder_cmd_bad :=
  rewrite (bool_decide_true (_ ≠ _)) by done.

(** C5: each builder rejects, with [ErrIncorrectCmd], a request whose
    command is not its own, whatever the arguments are; hence the request
    embedded in a typed request that was built carries the command of its
    builder. *)
Theorem builders_check_command (request : Request) :
  (cmd request <> client.CmdPush ->
   NewPushRequest request = Err ErrIncorrectCmd)
  /\ (cmd request <> client.CmdGet ->
      NewGetRequest request = Err ErrIncorrectCmd)
  /\ (cmd request <> client.CmdPull ->
      NewPullRequest request = Err ErrIncorrectCmd)
  /\ (cmd request <> client.CmdSet ->
      NewSetRequest request = Err ErrIncorrectCmd)
  /\ (cmd request <> client.CmdPrepare ->
      NewPrepareRequest request = Err ErrIncorrectCmd)
  /\ (cmd request <> client.CmdAccept ->
      NewAcceptRequest request = Err ErrIncorrectCmd)
  /\ (forall t, NewPushRequest request = Ok t ->
        cmd (PushRequest_Request t) = client.CmdPush)
  /\ (forall t, NewGetRequest request = Ok t ->
        cmd (GetRequest_Request t) = client.CmdGet)
  /\ (forall t, NewPullRequest request = Ok t ->
        cmd (PullRequest_Request t) = client.CmdPull)
  /\ (forall t, NewSetRequest request = Ok t ->
        cmd (SetRequest_Request t) = client.CmdSet)
  /\ (forall t, NewPrepareRequest request = Ok t ->
        cmd (PrepareRequest_Request t) = client.CmdPrepare)
  /\ (forall t, NewAcceptRequest request = Ok t ->
        cmd (AcceptRequest_Request t) = client.CmdAccept).
Proof.
  unfold NewPushRequest, NewGetRequest, NewPullRequest, NewSetRequest,
    NewPrepareRequest, NewAcceptRequest.
  repeat split; try (intros Hne; by builder_cmd_bad).
  all: intros t; case_bool_decide as Hc; [done|];
    case_bool_decide; [done|];
    repeat (match goal with
            | |- context [index ?l ?i] => destruct (index l i); simpl
            | |- context [strconv.Atoi ?s] => destruct (strconv.Atoi s); simpl
            end; try done);
    by intros [= <-].
Qed.

Lemma builders_check_command_witness :
  NewPushRequest {| ctx := ctx_nil; cmd := "get"; args := ["1"] |}
  = Err ErrIncorrectCmd
  /\ cmd (GetRequest_Request
            {| GetRequest_Request :=
                 {| ctx := ctx_nil; cmd := "get"; args := ["1"] |};
               GetRequest_n := 1 |}) = client.CmdGet.
Proof.
  pose proof (builders_check_command
                {| ctx := ctx_nil; cmd := "get"; args := ["1"] |}) as H.
  split.
  - apply (proj1 H). discriminate.
  - apply (proj1 (proj2 (proj2 (proj2 (proj2 (proj2 (proj2 (proj2 H)))))))).
    reflexivity.
Defined.

(** C6: [NewAcceptRequest] and [NewSetRequest] reject, with
    [ErrIncorrectCmd], every request that does not have exactly three
    arguments; on a request of their own command with exactly three
    arguments, the first of which [strconv.Atoi] reads as the integer [n],
    they build the typed request with that [n], [id] the second and [v]
    the third argument. *)
Theorem NewAcceptRequest_NewSetRequest_arity (request : Request) :
  (length (args request) <> 3%nat ->
   NewAcceptRequest request = Err ErrIncorrectCmd
   /\ NewSetRequest request = Err ErrIncorrectCmd)
  /\ (forall (a0 a1 a2 : string) (n : Z),
        args request = [a0; a1; a2] -> strconv.Atoi a0 = Ok n ->
        (cmd request = client.CmdAccept ->
         NewAcceptRequest request
         = Ok {| AcceptRequest_Request := request; AcceptRequest_n := n;
                 AcceptRequest_id := a1; AcceptRequest_v := a2 |})
        /\ (cmd request = client.CmdSet ->
            NewSetRequest request
            = Ok {| SetRequest_Request := request; SetRequest_n := n;
                    SetRequest_id := a1; SetRequest_v := a2 |})).
Proof.
  unfold NewAcceptRequest, NewSetRequest. split.
  - intros Hlen. split; case_bool_decide; try done; by builder_cmd_bad.
  - intros a0 a1 a2 n Hargs Hn.
    split; intros Hc; builder_cmd_ok; rewrite Hargs; simpl;
      rewrite Hn; reflexivity.
Qed.

Lemma NewAcceptRequest_NewSetRequest_arity_witness :
  (NewAcceptRequest {| ctx := ctx_nil; cmd := "accept";
                       args := ["1"; ""; "2"; "3"] |} = Err ErrIncorrectCmd
   /\ NewSetRequest {| ctx := ctx_nil; cmd := "accept";
                       args := ["1"; ""; "2"; "3"] |} = Err ErrIncorrectCmd)
  /\ NewSetRequest {| ctx := ctx_nil; cmd := "set";
                      args := ["-4"; "node1"; "val"] |}
     = Ok {| SetRequest_Request :=
               {| ctx := ctx_nil; cmd := "set";
                  args := ["-4"; "node1"; "val"] |};
             SetRequest_n := -4; SetRequest_id := "node1";
             SetRequest_v := "val" |}.
Proof.
  split.
  - apply (proj1 (NewAcceptRequest_NewSetRequest_arity
                    {| ctx := ctx_nil; cmd := "accept";
                       args := ["1"; ""; "2"; "3"] |})).
    simpl. lia.
  - apply (proj2 (NewAcceptRequest_NewSetRequest_arity
                    {| ctx := ctx_nil; cmd := "set";
                       args := ["-4"; "node1"; "val"] |})
             "-4" "node1" "val" (-4) eq_refl eq_refl).
    reflexivity.
Defined.

(** C7: on a request of their own command that has a first argument, the
    builders of Get, Pull and Prepare fail exactly when [strconv.Atoi]
    fails on that argument, and then with the error of [Atoi], a
    [NumError] about that argument, which is neither [ErrIncorrectCmd]
    nor [ErrUnknownCmd]; when [Atoi] reads the integer [n], they build the
    typed request whose field [n] is that integer. *)
Theorem builders_decode_first_argument
    (request : Request) (a0 : string) (rest : list string) :
  args request = a0 :: rest ->
  match strconv.Atoi a0 with
  | Err e =>
      (exists k, e = NumError "Atoi" a0 k)
      /\ e <> ErrIncorrectCmd /\ e <> ErrUnknownCmd
      /\ (cmd request = client.CmdGet -> NewGetRequest request = Err e)
      /\ (cmd request = client.CmdPull -> NewPullRequest request = Err e)
      /\ (cmd request = client.CmdPrepare ->
          NewPrepareRequest request = Err e)
  | Ok n =>
      (cmd request = client.CmdGet ->
       NewGetRequest request
       = Ok {| GetRequest_Request := request; GetRequest_n := n |})
      /\ (cmd request = client.CmdPull ->
          NewPullRequest request
          = Ok {| PullRequest_Request := request; PullRequest_n := n |})
      /\ (cmd request = client.CmdPrepare ->
          NewPrepareRequest request
          = Ok {| PrepareRequest_Request := request; PrepareRequest_n := n |})
  | Panic => False
  end.
Proof.
  intros Hargs. unfold NewGetRequest, NewPullRequest, NewPrepareRequest.
  rewrite Hargs. simpl.
  destruct (strconv.Atoi a0) as [n|e|] eqn:Hn.
  - repeat split; intros Hc; by builder_cmd_ok.
  - destruct (Atoi_Err _ _ Hn) as [k ->].
    repeat split; try done; [by eexists|..]; intros Hc; by builder_cmd_ok.
  - by apply Atoi_no_Panic in Hn.
Qed.

Lemma builders_decode_first_argument_witness :
  NewGetRequest {| ctx := ctx_nil; cmd := "get"; args := ["x1"] |}
  = Err (NumError "Atoi" "x1" ErrSyntax)
  /\ NewPullRequest {| ctx := ctx_nil; cmd := "pull"; args := ["12"; "z"] |}
     = Ok {| PullRequest_Request :=
               {| ctx := ctx_nil; cmd := "pull"; args := ["12"; "z"] |};
             PullRequest_n := 12 |}.
Proof.
  split.
  - pose proof (builders_decode_first_argument
                  {| ctx := ctx_nil; cmd := "get"; args := ["x1"] |}
                  "x1" [] eq_refl) as H.
    change (strconv.Atoi "x1") with
      (@Err Z (NumError "Atoi" "x1" ErrSyntax)) in H.
    apply H. reflexivity.
  - pose proof (builders_decode_first_argument
                  {| ctx := ctx_nil; cmd := "pull"; args := ["12"; "z"] |}
                  "12" ["z"] eq_refl) as H.
    change (strconv.Atoi "12") with (@Ok Z 12) in H.
    apply H. reflexivity.
Defined.

(** ** Splitting at every separator *)

#[global] Arguments strings.Split : simpl never.

Section SplitEvery.

Variable sep : ascii.

Lemma Split_String (c : ascii) (s : string) :
  strings.Split (String c s) sep
  = if decide (c = sep) then EmptyString :: strings.Split s sep
    else match strings.Split s sep with
         | h :: t => String c h :: t
         | [] => []
         end.
Proof.
  rewrite !Split_unfold. simpl. case_decide as Hc; simpl.
  - by rewrite decide_True.
  - destruct (strings.Count s sep) as [|n]; simpl; [done|].
    rewrite decide_False by done.
    by destruct (strings.cut s sep) as [[a b]|].
Qed.

Lemma Split_app_sep (a b : string) :
  strings.Split (a +:+ String sep b) sep
  = (strings.Split a sep ++ strings.Split b sep)%list.
Proof.
  induction a as [|c a IH].
  - change (EmptyString +:+ String sep b) with (String sep b).
    rewrite Split_String, decide_True by done.
    by rewrite (Split_sepfree sep EmptyString).
  - change (String c a +:+ String sep b)
      with (String c (a +:+ String sep b)).
    rewrite !Split_String, IH. case_decide; [done|].
    pose proof (Split_nonempty sep a) as Hne.
    destruct (strings.Split a sep); simpl in *; [lia|done].
Qed.

(** Splitting a joined list splits each of its elements. *)
Lemma Split_Join_flat (l : list string) :
  l <> [] ->
  strings.Split (strings.Join l sep) sep
  = flat_map (fun e => strings.Split e sep) l.
Proof.
  induction l as [|e l IH]; [done|]. intros _.
  destruct l as [|e' l].
  - simpl. by rewrite app_nil_r.
  - change (strings.Join (e :: e' :: l) sep)
      with (e +:+ String sep (strings.Join (e' :: l) sep)).
    rewrite Split_app_sep, IH by done. reflexivity.
Qed.

Lemma flat_map_Split_sepfree (l : list string) :
  Forall (fun t => strings.Count t sep = 0%nat) l ->
  flat_map (fun e => strings.Split e sep) l = l.
Proof.
  induction 1 as [|t l Ht _ IH]; simpl; [done|].
  by rewrite Split_sepfree, IH.
Qed.

End SplitEvery.

Lemma Split_spaces (k : nat) (t : string) :
  spaceless t ->
  strings.Split (spaces k +:+ t) space = (replicate k EmptyString ++ [t])%list.
Proof.
  intros Ht. induction k as [|k IH].
  - change (spaces 0 +:+ t) with t. by apply Split_sepfree.
  - change (spaces (S k) +:+ t) with (String space (spaces k +:+ t)).
    rewrite Split_String, decide_True by done. by rewrite IH.
Qed.

Lemma Split_run_of_spaces (k : nat) (t1 t2 : string) :
  spaceless t1 -> spaceless t2 ->
  strings.Split (t1 +:+ spaces (S k) +:+ t2) space
  = (t1 :: replicate k EmptyString ++ [t2])%list.
Proof.
  intros H1 H2.
  change (spaces (S k) +:+ t2) with (String space (spaces k +:+ t2)).
  rewrite Split_cons by done. by rewrite Split_spaces.
Qed.

(** C10: the remainder is cut at every single space.  In a line made of a
    command and arguments joined by single spaces, a run of [k >= 1] spaces
    between the space-free tokens [t1] and [t2] leaves exactly [k - 1]
    empty-string arguments between [t1] and [t2] in the parsed argument
    sequence; the empty arguments count for the arity, so that
    [NewAcceptRequest] rejects the parsed request with [ErrIncorrectCmd]
    unless tokens and empty arguments together are three. *)
Theorem parseRawMessage_consecutive_spaces
    (token t1 t2 : string) (before after : list string) (k : nat) :
  token ∈ availableCmds ->
  Forall spaceless before -> spaceless t1 -> spaceless t2 ->
  Forall spaceless after -> (1 <= k)%nat ->
  let parsed :=
    {| ctx := ctx_nil; cmd := token;
       args := before ++ [t1] ++ replicate (k - 1) EmptyString
               ++ [t2] ++ after |} in
  parseRawMessage
    (strings.Join (token :: before ++ [t1 +:+ spaces k +:+ t2] ++ after) space)
  = Ok parsed
  /\ ((length before + 2 + (k - 1) + length after)%nat <> 3%nat ->
      NewAcceptRequest parsed = Err ErrIncorrectCmd).
Proof.
  intros Hin Hb H1 H2 Ha Hk parsed. split.
  - subst parsed.
    destruct k as [|k]; [lia|]. replace (S k - 1)%nat with k by lia.
    set (x := t1 +:+ spaces (S k) +:+ t2).
    assert (Hne : (before ++ [x] ++ after)%list <> [])
      by (destruct before; discriminate).
    destruct (before ++ [x] ++ after)%list as [|e l] eqn:El; [done|].
    change (strings.Join (token :: e :: l) space)
      with (token +:+ String space (strings.Join (e :: l) space)).
    rewrite parseRawMessage_token by done. do 2 f_equal.
    rewrite Split_Join_flat by done. rewrite <- El.
    rewrite !flat_map_app. simpl. rewrite app_nil_r.
    rewrite !flat_map_Split_sepfree by done.
    unfold x. rewrite Split_run_of_spaces by done.
    simpl. by rewrite <- app_assoc.
  - intros Hlen. unfold NewAcceptRequest.
    case_bool_decide; [done|].
    rewrite bool_decide_true; [done|].
    subst parsed. simpl.
    repeat (rewrite ?length_app, ?length_replicate, ?length_cons; simpl).
    lia.
Qed.

Lemma parseRawMessage_consecutive_spaces_witness :
  parseRawMessage "accept 1  2 3"
  = Ok {| ctx := ctx_nil; cmd := "accept"; args := ["1"; ""; "2"; "3"] |}
  /\ NewAcceptRequest
       {| ctx := ctx_nil; cmd := "accept"; args := ["1"; ""; "2"; "3"] |}
     = Err ErrIncorrectCmd.
Proof.
  assert (Hin : "accept" ∈ availableCmds)
    by (apply availableCmds_elem; auto 10).
  destruct (parseRawMessage_consecutive_spaces "accept" "1" "2" [] ["3"] 2
              Hin ltac:(constructor) eq_refl eq_refl
              ltac:(repeat constructor) ltac:(lia))
    as [Hp Ha].
  split; [exact Hp|]. apply Ha. simpl. lia.
Defined.

(** ** The dispatcher never panics and invokes one operation *)

Lemma parseRawMessage_no_Panic (message : string) :
  parseRawMessage message <> Panic.
Proof. rewrite parseRawMessage_unfold. by case_bool_decide. Qed.

(** The builders index the arguments only below the length they checked. *)
Lemma buildCall_no_Panic (request : Request) : buildCall request <> Panic.
Proof.
  unfold buildCall, NewPushRequest, NewGetRequest, NewPullRequest,
    NewSetRequest, NewPrepareRequest, NewAcceptRequest.
  destruct (args request) as [|a0 [|a1 [|a2 [|a3 l]]]];
    repeat case_decide; try done;
    repeat (case_bool_decide; simpl in *; try done);
    try (pose proof (Atoi_no_Panic a0);
         destruct (strconv.Atoi a0); simpl; done).
Qed.

(** [Process] is: parse, build the typed request of the parsed command,
    invoke its semantic operation, returning at the first error. *)
Lemma Process_dispatch
    {World ServerResponse : Type} (h : Handler World ServerResponse)
    (ctx0 : Context) (message : ServerRequest) (response : ServerResponse)
    (w : World) :
  Process h ctx0 message response w
  = orReturn (parseRawMessage (Message message))
      (fun parsed =>
         orReturn
           (buildCall {| ctx := ctx0; cmd := cmd parsed;
                         args := args parsed |})
           (fun call => invoke h call response)) w.
Proof.
  unfold Process, orReturn, buildCall.
  destruct (parseRawMessage (Message message)) as [parsed|e|]; [|done|done].
  cbn [cmd].
  repeat case_decide;
    try (match goal with
         | |- context [NewPushRequest ?r] => destruct (NewPushRequest r)
         | |- context [NewGetRequest ?r] => destruct (NewGetRequest r)
         | |- context [NewPullRequest ?r] => destruct (NewPullRequest r)
         | |- context [NewSetRequest ?r] => destruct (NewSetRequest r)
         | |- context [NewPrepareRequest ?r] => destruct (NewPrepareRequest r)
         | |- context [NewAcceptRequest ?r] => destruct (NewAcceptRequest r)
         end); reflexivity.
Qed.

(** An operation of the instrumented handler is the operation of the
    wrapped handler, recorded. *)
Lemma invoke_traced
    {World ServerResponse : Type} (h : Handler World ServerResponse)
    (call : Call) (response : ServerResponse) (w : World) (calls : list Call) :
  invoke (traced h) call response (w, calls)
  = (let '(r, w') := invoke h call response w in
     (r, (w', (calls ++ [call])%list))).
Proof. by destruct call. Qed.

(** The build step yields the operation of the request's command. *)
Lemma buildCall_cmd (request : Request) (call : Call) :
  buildCall request = Ok call -> Call_cmd call = cmd request.
Proof.
  unfold buildCall.
  repeat case_decide; try done;
    try (match goal with
         | |- context [NewPushRequest ?r] => destruct (NewPushRequest r)
         | |- context [NewGetRequest ?r] => destruct (NewGetRequest r)
         | |- context [NewPullRequest ?r] => destruct (NewPullRequest r)
         | |- context [NewSetRequest ?r] => destruct (NewSetRequest r)
         | |- context [NewPrepareRequest ?r] => destruct (NewPrepareRequest r)
         | |- context [NewAcceptRequest ?r] => destruct (NewAcceptRequest r)
         end); simpl; try done; by intros [= <-].
Qed.

(** The errors of the build step are those of the builders, each
    [ErrIncorrectCmd] or an error of [strconv.Atoi]. *)
Lemma buildCall_Err (request : Request) (e : error) :
  cmd request ∈ availableCmds -> buildCall request = Err e ->
  e <> ErrUnknownCmd.
Proof.
  intros Hin. unfold buildCall, NewPushRequest, NewGetRequest,
    NewPullRequest, NewSetRequest, NewPrepareRequest, NewAcceptRequest.
  repeat case_decide;
    try (exfalso; apply availableCmds_elem in Hin; by intuition).
  all: destruct (args request) as [|a0 [|a1 [|a2 [|a3 l]]]];
    repeat (case_bool_decide; simpl in *; try done);
    try (destruct (strconv.Atoi a0) eqn:Hn; simpl;
         [| apply Atoi_Err in Hn as [? ->] |]);
    try done; intros [= <-]; discriminate.
Qed.

(** C2: on every inbound message [Process] either returns the error of
    the parser or of the typed request builder of the parsed command with
    no semantic operation invoked and the world untouched, or, when both
    succeed, invokes exactly one semantic operation: the one of the parsed
    command, on the typed request that was built, whose outcome it
    returns.  The handler is instrumented to record its invocations. *)
Theorem Process_invokes_exactly_one_operation
    {World ServerResponse : Type} (h : Handler World ServerResponse)
    (ctx0 : Context) (message : ServerRequest) (response : ServerResponse)
    (w : World) :
  let out := Process (traced h) ctx0 message response (w, []) in
  match parseRawMessage (Message message) with
  | Ok parsed =>
      match buildCall {| ctx := ctx0; cmd := cmd parsed;
                         args := args parsed |} with
      | Ok call =>
          out = (let '(r, w') := invoke h call response w in
                 (r, (w', [call])))
          /\ Call_cmd call = cmd parsed
      | Err e => out = (Err e, (w, []))
      | Panic => False
      end
  | Err e => out = (Err e, (w, []))
  | Panic => False
  end.
Proof.
  intros out. subst out. rewrite Process_dispatch. unfold orReturn.
  pose proof (parseRawMessage_no_Panic (Message message)) as Hp.
  destruct (parseRawMessage (Message message)) as [parsed|e|]; [|done|done].
  set (request := {| ctx := ctx0; cmd := cmd parsed; args := args parsed |}).
  pose proof (buildCall_no_Panic request) as Hb.
  pose proof (buildCall_cmd request) as Hc.
  destruct (buildCall request) as [call|e|]; [|done|done].
  rewrite invoke_traced. split; [reflexivity|]. by apply Hc.
Qed.

(** X1: the [default] branch of the switch of [Process] is dead code: when
    [Process] returns without having invoked a semantic operation, the
    error it returns is never [ErrUnknownCmd]. *)
Theorem Process_never_reports_unknown_cmd
    {World ServerResponse : Type} (h : Handler World ServerResponse)
    (ctx0 : Context) (message : ServerRequest) (response : ServerResponse)
    (w : World) :
  (Process (traced h) ctx0 message response (w, [])).2.2 = [] ->
  (Process (traced h) ctx0 message response (w, [])).1 <> Err ErrUnknownCmd.
Proof.
  rewrite Process_dispatch. unfold orReturn.
  pose proof (parseRawMessage_unfold (Message message)) as Hp.
  destruct (parseRawMessage (Message message)) as [parsed|e|]; [| |done].
  - case_bool_decide as Hin; [|done]. injection Hp as Hp.
    set (request := {| ctx := ctx0; cmd := cmd parsed;
                       args := args parsed |}).
    assert (Hin' : cmd request ∈ availableCmds) by (by subst parsed).
    pose proof (buildCall_Err request) as He.
    destruct (buildCall request) as [call|e|]; [| |done].
    + rewrite invoke_traced.
      destruct (invoke h call response w). simpl. discriminate.
    + simpl. intros _ [= ->]. by eapply He.
  - simpl. case_bool_decide; [done|]. by injection Hp as ->.
Qed.

Lemma Process_never_reports_unknown_cmd_witness :
  (Process (traced idle) ctx_nil (msg "foo") tt (tt, [])).1
  <> Err ErrUnknownCmd.
Proof.
  apply (Process_never_reports_unknown_cmd idle ctx_nil (msg "foo") tt tt).
  reflexivity.
Defined.

(** C8, as stated, fails: the status message ["status foo bar"] carries
    arguments, yet [Process] does not fail with [ErrIncorrectCmd]; it
    invokes the Status operation. *)
Lemma Process_status_with_arguments_counterexample :
  Process (traced idle) ctx_nil (msg "status foo bar") tt (tt, [])
  = (Ok tt, (tt, [CallStatus]))
  /\ Process (traced idle) ctx_nil (msg "status foo bar") tt (tt, [])
     <> (Err ErrIncorrectCmd, (tt, [])).
Proof. split; [vm_compute; reflexivity|vm_compute; discriminate]. Qed.

(** C8, amended: the status branch of [Process] checks no arity.  A
    status message, bare or followed by a space and anything at all, is
    dispatched to the Status operation, its arguments ignored: [Process]
    is then exactly the call of [h.Status] on the response sink. *)
Theorem Process_status_ignores_arguments
    {World ServerResponse : Type} (h : Handler World ServerResponse)
    (ctx0 : Context) (rest address name : string)
    (response : ServerResponse) :
  Process h ctx0
    {| Message := "status"; Address := address; Name := name |} response
  = Status h response
  /\ Process h ctx0
       {| Message := "status " +:+ rest; Address := address; Name := name |}
       response
     = Status h response.
Proof.
  assert (Hin : "status" ∈ availableCmds)
    by (apply availableCmds_elem; auto 10).
  unfold Process. cbn [Message]. split.
  - by rewrite (parseRawMessage_bare "status" Hin).
  - change ("status " +:+ rest) with ("status" +:+ String space rest).
    by rewrite (parseRawMessage_token "status" rest Hin).
Qed.

(** C9: a request produced by the parser has at least one argument, so
    the test [len(request.args) == 0] of the Push, Get, Pull and Prepare
    builders never holds on it: on a parsed push request [NewPushRequest]
    succeeds, and on a parsed get, pull or prepare request the builder
    never fails with [ErrIncorrectCmd].  A bare ["push"] is dispatched to
    Push with [v] the empty string; a bare ["get"], ["pull"] or
    ["prepare"] fails with the syntax error of [strconv.Atoi] on the empty
    string, whatever the handler. *)
Theorem parsed_requests_have_an_argument :
  (forall (message : string) (r : Request),
     parseRawMessage message = Ok r ->
     (1 <= length (args r))%nat
     /\ (cmd r = client.CmdPush -> exists t, NewPushRequest r = Ok t)
     /\ (cmd r = client.CmdGet -> NewGetRequest r <> Err ErrIncorrectCmd)
     /\ (cmd r = client.CmdPull -> NewPullRequest r <> Err ErrIncorrectCmd)
     /\ (cmd r = client.CmdPrepare ->
         NewPrepareRequest r <> Err ErrIncorrectCmd))
  /\ (forall (World ServerResponse : Type) (h : Handler World ServerResponse)
        (ctx0 : Context) (address name : string) (response : ServerResponse),
        Process h ctx0 {| Message := "push"; Address := address; Name := name |}
          response
        = Push h {| PushRequest_Request :=
                      {| ctx := ctx0; cmd := "push"; args := [EmptyString] |};
                    PushRequest_v := EmptyString |} response
        /\ forall (c : string) (w : World),
             c = "get" \/ c = "pull" \/ c = "prepare" ->
             Process h ctx0 {| Message := c; Address := address; Name := name |}
               response w
             = (Err (NumError "Atoi" EmptyString ErrSyntax), w)).
Proof.
  split.
  - intros message r Hr. apply parseRawMessage_Ok in Hr as (_ & _ & Hargs).
    pose proof (Split_nonempty space (remainder message)) as Hlen.
    rewrite <- Hargs in Hlen. split; [done|].
    unfold NewPushRequest, NewGetRequest, NewPullRequest, NewPrepareRequest.
    destruct (args r) as [|a0 l]; [simpl in Hlen; lia|]. simpl.
    repeat split; intros Hc; builder_cmd_ok; [by eexists|..];
      destruct (strconv.Atoi a0) as [n|e|] eqn:Hn; simpl; try done;
      destruct (Atoi_Err _ _ Hn) as [k ->]; done.
  - intros World ServerResponse h ctx0 address name response.
    unfold Process. cbn [Message]. split.
    + rewrite parseRawMessage_bare by (apply availableCmds_elem; auto 10).
      reflexivity.
    + intros c w Hc.
      rewrite parseRawMessage_bare by (apply availableCmds_elem; tauto).
      by destruct Hc as [->|[->| ->]].
Qed.

Lemma parsed_requests_have_an_argument_witness :
  (1 <= length (args {| ctx := ctx_nil; cmd := "get";
                        args := [EmptyString] |}))%nat
  /\ NewGetRequest {| ctx := ctx_nil; cmd := "get"; args := [EmptyString] |}
     <> Err ErrIncorrectCmd.
Proof.
  destruct (proj1 parsed_requests_have_an_argument "get"
              {| ctx := ctx_nil; cmd := "get"; args := [EmptyString] |}
              eq_refl) as (Hlen & _ & Hget & _).
  split; [exact Hlen|]. apply Hget. reflexivity.
Defined.

(** * Further properties of the parser, the builders and the dispatcher *)

(** ** Splitting and joining *)

Section SplitJoin.

Variable sep : ascii.

Lemma Join_String (c : ascii) (h : string) (t : list string) :
  strings.Join (String c h :: t) sep = String c (strings.Join (h :: t) sep).
Proof. by destruct t. Qed.

Lemma Join_empty_cons (h : string) (t : list string) :
  strings.Join (EmptyString :: h :: t) sep
  = String sep (strings.Join (h :: t) sep).
Proof. reflexivity. Qed.

(** Joining what was split gives the string back. *)
Lemma Join_Split (s : string) :
  strings.Join (strings.Split s sep) sep = s.
Proof.
  induction s as [|c s IH].
  - by rewrite (Split_sepfree sep EmptyString).
  - rewrite Split_String.
    pose proof (Split_nonempty sep s) as Hne.
    destruct (strings.Split s sep) as [|h t]; [simpl in Hne; lia|].
    case_decide as Hc.
    + subst c. by rewrite Join_empty_cons, IH.
    + by rewrite Join_String, IH.
Qed.

Lemma Split_length (s : string) :
  length (strings.Split s sep) = S (strings.Count s sep).
Proof.
  induction s as [|c s IH].
  - by rewrite (Split_sepfree sep EmptyString).
  - rewrite Split_String. simpl. case_decide; simpl; [by rewrite IH|].
    by destruct (strings.Split s sep).
Qed.

Lemma Split_Forall_sepfree (s : string) :
  Forall (fun t => strings.Count t sep = 0%nat) (strings.Split s sep).
Proof.
  induction s as [|c s IH].
  - rewrite (Split_sepfree sep EmptyString) by done. by constructor.
  - rewrite Split_String. case_decide.
    + by constructor.
    + destruct (strings.Split s sep) as [|h t]; [constructor|].
      apply Forall_cons in IH as [Hh Ht]. constructor; [|done].
      simpl. by rewrite decide_False.
Qed.

End SplitJoin.

(** ** The parser: accepted lines, round trip, invariants *)

Lemma Count_leadingToken_remainder (message : string) :
  strings.Count message space
  = match strings.cut message space with
    | Some _ => S (strings.Count (remainder message) space)
    | None => 0%nat
    end.
Proof.
  unfold remainder.
  destruct (strings.cut message space) as [[a b]|] eqn:E.
  - apply cut_Some in E as [-> Ha].
    rewrite Count_app, Ha.
    change (strings.Count (String space b) space)
      with (if decide (space = space) then S (strings.Count b space)
            else strings.Count b space).
    by rewrite decide_True.
  - by apply cut_is_None.
Qed.

(** X2: [strings.SplitN(message, " ", 2)] is the line itself when it has
    no space and otherwise the two parts around its first space; it is
    never empty, so the test [len(parsed) == 0] that opens
    [parseRawMessage] never holds. *)
Theorem SplitN_2_one_or_two (message : string) :
  (strings.Count message space = 0%nat ->
   strings.SplitN message space 2 = [message])
  /\ (strings.Count message space <> 0%nat ->
      exists a b : string,
        strings.SplitN message space 2 = [a; b]
        /\ message = a +:+ String space b /\ spaceless a)
  /\ length (strings.SplitN message space 2) <> 0%nat.
Proof.
  rewrite SplitN_2.
  destruct (strings.cut message space) as [[a b]|] eqn:E.
  - pose proof (cut_Some space _ _ _ E) as [Hm Ha].
    split; [|split; [|done]].
    + intros H0. by rewrite (cut_None space message H0) in E.
    + intros _. by exists a, b.
  - apply cut_is_None in E. split; [done|]. split; [|done]. by intros [].
Qed.

Lemma SplitN_2_one_or_two_witness :
  exists a b : string,
    strings.SplitN "get 1 2" space 2 = [a; b]
    /\ "get 1 2" = a +:+ String space b /\ spaceless a.
Proof.
  apply (proj1 (proj2 (SplitN_2_one_or_two "get 1 2"))).
  vm_compute. discriminate.
Defined.

(** X3: the parser accepts exactly the lines that are one of the seven
    command names, alone or followed by a space and anything; every
    other line, the empty one included, gets [ErrIncorrectCmd]. *)
Theorem parseRawMessage_accepts_iff (message : string) :
  ((exists r, parseRawMessage message = Ok r) <->
   (exists token : string,
      token ∈ availableCmds
      /\ (message = token
          \/ exists rest, message = token +:+ String space rest)))
  /\ ((exists r, parseRawMessage message = Ok r)
      \/ parseRawMessage message = Err ErrIncorrectCmd).
Proof.
  split.
  - split.
    + intros [r Hr]. rewrite parseRawMessage_unfold in Hr.
      case_bool_decide as Hin; [|done].
      exists (leadingToken message). split; [done|].
      destruct (leadingToken_remainder message) as [_ [[H _]|H]]; eauto.
    + intros (token & Hin & [->|[rest ->]]).
      * rewrite parseRawMessage_bare by done. eauto.
      * rewrite parseRawMessage_token by done. eauto.
  - rewrite parseRawMessage_unfold. case_bool_decide; eauto.
Qed.

Lemma parseRawMessage_accepts_iff_witness :
  exists r, parseRawMessage "status x" = Ok r.
Proof.
  apply (proj2 (proj1 (parseRawMessage_accepts_iff "status x"))).
  exists "status". split.
  - apply availableCmds_elem. auto 10.
  - right. by exists "x".
Defined.

(** X4: parsing loses nothing of an accepted line.  A line with a space
    is the command and the arguments of the parsed request joined by
    single spaces; a line without one is the command itself, and the
    arguments are then the single empty string. *)
Theorem parseRawMessage_round_trip (message : string) (r : Request) :
  parseRawMessage message = Ok r ->
  if bool_decide (strings.Count message space = 0%nat)
  then message = cmd r /\ args r = [EmptyString]
  else strings.Join (cmd r :: args r) space = message.
Proof.
  rewrite parseRawMessage_unfold. case_bool_decide as Hin; [|done].
  intros [= <-]. simpl.
  rewrite Count_leadingToken_remainder. unfold leadingToken, remainder.
  destruct (strings.cut message space) as [[a b]|] eqn:E.
  - rewrite bool_decide_false by done.
    apply cut_Some in E as [-> _].
    pose proof (Split_nonempty space b) as Hne.
    pose proof (Join_Split space b) as Hj.
    destruct (strings.Split b space) as [|h t]; [simpl in Hne; lia|].
    change (strings.Join (a :: h :: t) space)
      with (a +:+ String space (strings.Join (h :: t) space)).
    by rewrite Hj.
  - rewrite bool_decide_true by done. split; [done|].
    by apply (Split_sepfree space EmptyString).
Qed.

Lemma parseRawMessage_round_trip_witness :
  strings.Join ("set" :: ["1"; ""; "b"; "c"; ""]) space = "set 1  b c ".
Proof.
  exact (parseRawMessage_round_trip "set 1  b c "
           {| ctx := ctx_nil; cmd := "set";
              args := ["1"; ""; "b"; "c"; ""] |} eq_refl).
Defined.

(** X5: what every parsed request satisfies.  Its context is nil, its
    command is one of the seven and has no space, none of its arguments
    has a space, and it has as many arguments as the line has spaces (one
    argument when the line has none). *)
Theorem parseRawMessage_invariants (message : string) (r : Request) :
  parseRawMessage message = Ok r ->
  ctx r = ctx_nil
  /\ cmd r ∈ availableCmds /\ spaceless (cmd r)
  /\ Forall spaceless (args r)
  /\ length (args r) = Nat.max 1 (strings.Count message space).
Proof.
  intros Hr. apply parseRawMessage_Ok in Hr as (Hin & Hctx & Hargs).
  split; [done|]. split; [done|].
  split; [by apply availableCmds_spaceless|].
  rewrite Hargs. split; [apply Split_Forall_sepfree|].
  rewrite Split_length, (Count_leadingToken_remainder message).
  unfold remainder.
  destruct (strings.cut message space) as [[a b]|]; [lia|reflexivity].
Qed.

Lemma parseRawMessage_invariants_witness :
  ctx_nil = ctx_nil
  /\ "get" ∈ availableCmds /\ spaceless "get"
  /\ Forall spaceless ["1"; ""; "x"]
  /\ length ["1"; ""; "x"] = Nat.max 1 (strings.Count "get 1  x" space).
Proof.
  exact (parseRawMessage_invariants "get 1  x"
           {| ctx := ctx_nil; cmd := "get"; args := ["1"; ""; "x"] |}
           eq_refl).
Defined.

(** ** The builders: success, errors, bounds *)

(** X6: the builders of Push, Get, Pull and Prepare succeed exactly on a
    request of their own command that has a first argument (an integer
    for [strconv.Atoi], for the last three); whatever follows the first
    argument is ignored; the typed request embeds the request as given
    and carries the first argument, resp. its integer. *)
Theorem one_argument_builders_succeed_iff (request : Request) :
  (forall t, NewPushRequest request = Ok t <->
     cmd request = client.CmdPush
     /\ exists a0 rest, args request = a0 :: rest
        /\ t = {| PushRequest_Request := request; PushRequest_v := a0 |})
  /\ (forall t, NewGetRequest request = Ok t <->
        cmd request = client.CmdGet
        /\ exists a0 rest n, args request = a0 :: rest
           /\ strconv.Atoi a0 = Ok n
           /\ t = {| GetRequest_Request := request; GetRequest_n := n |})
  /\ (forall t, NewPullRequest request = Ok t <->
        cmd request = client.CmdPull
        /\ exists a0 rest n, args request = a0 :: rest
           /\ strconv.Atoi a0 = Ok n
           /\ t = {| PullRequest_Request := request; PullRequest_n := n |})
  /\ (forall t, NewPrepareRequest request = Ok t <->
        cmd request = client.CmdPrepare
        /\ exists a0 rest n, args request = a0 :: rest
           /\ strconv.Atoi a0 = Ok n
           /\ t = {| PrepareRequest_Request := request;
                     PrepareRequest_n := n |}).
Proof.
  unfold NewPushRequest, NewGetRequest, NewPullRequest, NewPrepareRequest.
  split; [|split; [|split]]; intros t; split.
  all: first
    [ intros (Hc & a0 & rest & Hrest); builder_cmd_ok;
      first [ destruct Hrest as (n & Hargs & Hn & ->)
            | destruct Hrest as (Hargs & ->) ];
      rewrite Hargs; simpl; by rewrite ?Hn
    | case_bool_decide as Hc; [done|]; case_bool_decide as Hl; [done|];
      destruct (args request) as [|a0 rest]; [done|]; simpl;
      try (destruct (strconv.Atoi a0) as [n| |] eqn:Hn; simpl; [|done..]);
      intros [= <-]; eauto 10 ].
Qed.

Lemma one_argument_builders_succeed_iff_witness :
  NewPushRequest {| ctx := ctx_nil; cmd := "push"; args := ["a"; "b"] |}
  = Ok {| PushRequest_Request :=
            {| ctx := ctx_nil; cmd := "push"; args := ["a"; "b"] |};
          PushRequest_v := "a" |}.
Proof.
  apply (proj1 (one_argument_builders_succeed_iff
                  {| ctx := ctx_nil; cmd := "push"; args := ["a"; "b"] |})).
  split; [reflexivity|]. by exists "a", ["b"].
Defined.

(** X7: the builders of Accept and Set succeed exactly on a request of
    their own command with exactly three arguments, the first of which
    [strconv.Atoi] reads as an integer; the typed request embeds the
    request as given, with [n] that integer, [id] the second and [v] the
    third argument. *)
Theorem three_argument_builders_succeed_iff (request : Request) :
  (forall t, NewAcceptRequest request = Ok t <->
     cmd request = client.CmdAccept
     /\ exists a0 a1 a2 n, args request = [a0; a1; a2]
        /\ strconv.Atoi a0 = Ok n
        /\ t = {| AcceptRequest_Request := request; AcceptRequest_n := n;
                  AcceptRequest_id := a1; AcceptRequest_v := a2 |})
  /\ (forall t, NewSetRequest request = Ok t <->
        cmd request = client.CmdSet
        /\ exists a0 a1 a2 n, args request = [a0; a1; a2]
           /\ strconv.Atoi a0 = Ok n
           /\ t = {| SetRequest_Request := request; SetRequest_n := n;
                     SetRequest_id := a1; SetRequest_v := a2 |}).
Proof.
  unfold NewAcceptRequest, NewSetRequest.
  split; intros t; split.
  all: first
    [ intros (Hc & a0 & a1 & a2 & n & Hargs & Hn & ->); builder_cmd_ok;
      rewrite Hargs; simpl; by rewrite Hn
    | case_bool_decide as Hc; [done|]; case_bool_decide as Hl; [done|];
      destruct (args request) as [|a0 [|a1 [|a2 [|a3 rest]]]];
      simpl in Hl; try done;
      simpl; destruct (strconv.Atoi a0) as [n| |] eqn:Hn; simpl; [|done..];
      intros [= <-]; eauto 10 ].
Qed.

Lemma three_argument_builders_succeed_iff_witness :
  NewSetRequest {| ctx := ctx_nil; cmd := "set"; args := ["+8"; "i"; "v"] |}
  = Ok {| SetRequest_Request :=
            {| ctx := ctx_nil; cmd := "set"; args := ["+8"; "i"; "v"] |};
          SetRequest_n := 8; SetRequest_id := "i"; SetRequest_v := "v" |}.
Proof.
  apply (proj2 (three_argument_builders_succeed_iff
                  {| ctx := ctx_nil; cmd := "set";
                     args := ["+8"; "i"; "v"] |})).
  split; [reflexivity|]. by exists "+8", "i", "v", 8.
Defined.

(** X8: the order of the tests of a builder shows in its error.  The
    Push builder fails with [ErrIncorrectCmd] only.  Any other builder
    fails either with [ErrIncorrectCmd], or, on a request of its own
    command and of the right arity, with the error of [strconv.Atoi] on
    the first argument: a wrong command or arity hides a bad number. *)
Theorem builders_errors (request : Request) (e : error) :
  (NewPushRequest request = Err e -> e = ErrIncorrectCmd)
  /\ (NewGetRequest request = Err e ->
      e = ErrIncorrectCmd
      \/ cmd request = client.CmdGet
         /\ exists a0 rest, args request = a0 :: rest
            /\ strconv.Atoi a0 = Err e)
  /\ (NewPullRequest request = Err e ->
      e = ErrIncorrectCmd
      \/ cmd request = client.CmdPull
         /\ exists a0 rest, args request = a0 :: rest
            /\ strconv.Atoi a0 = Err e)
  /\ (NewPrepareRequest request = Err e ->
      e = ErrIncorrectCmd
      \/ cmd request = client.CmdPrepare
         /\ exists a0 rest, args request = a0 :: rest
            /\ strconv.Atoi a0 = Err e)
  /\ (NewAcceptRequest request = Err e ->
      e = ErrIncorrectCmd
      \/ cmd request = client.CmdAccept
         /\ exists a0 a1 a2, args request = [a0; a1; a2]
            /\ strconv.Atoi a0 = Err e)
  /\ (NewSetRequest request = Err e ->
      e = ErrIncorrectCmd
      \/ cmd request = client.CmdSet
         /\ exists a0 a1 a2, args request = [a0; a1; a2]
            /\ strconv.Atoi a0 = Err e).
Proof.
  unfold NewPushRequest, NewGetRequest, NewPullRequest, NewPrepareRequest,
    NewAcceptRequest, NewSetRequest.
  split; [|split; [|split; [|split; [|split]]]].
  all: case_bool_decide as Hc; [intros [= <-]; by auto|].
  all: case_bool_decide as Hl; [intros [= <-]; by auto|].
  all: destruct (args request) as [|a0 [|a1 [|a2 [|a3 rest]]]];
    simpl in Hl; try done; simpl;
    try (destruct (strconv.Atoi a0) as [n| |] eqn:Hn; simpl);
    intros [= <-]; right; eauto 10.
Qed.

Lemma builders_errors_witness :
  NumError "Atoi" "x" ErrSyntax = ErrIncorrectCmd
  \/ cmd {| ctx := ctx_nil; cmd := "accept"; args := ["x"; "b"; "c"] |}
     = client.CmdAccept
     /\ exists a0 a1 a2,
          args {| ctx := ctx_nil; cmd := "accept"; args := ["x"; "b"; "c"] |}
          = [a0; a1; a2]
          /\ strconv.Atoi a0 = Err (NumError "Atoi" "x" ErrSyntax).
Proof.
  apply (builders_errors
           {| ctx := ctx_nil; cmd := "accept"; args := ["x"; "b"; "c"] |}
           (NumError "Atoi" "x" ErrSyntax)).
  reflexivity.
Defined.

(** X9: the integer field of a typed request that was built fits Go's
    64-bit [int]: a numeral out of that range is refused by
    [strconv.Atoi], never wrapped around. *)
Theorem builders_integer_in_range (request : Request) :
  (forall t, NewGetRequest request = Ok t ->
     - 2 ^ 63 <= GetRequest_n t < 2 ^ 63)
  /\ (forall t, NewPullRequest request = Ok t ->
        - 2 ^ 63 <= PullRequest_n t < 2 ^ 63)
  /\ (forall t, NewPrepareRequest request = Ok t ->
        - 2 ^ 63 <= PrepareRequest_n t < 2 ^ 63)
  /\ (forall t, NewAcceptRequest request = Ok t ->
        - 2 ^ 63 <= AcceptRequest_n t < 2 ^ 63)
  /\ (forall t, NewSetRequest request = Ok t ->
        - 2 ^ 63 <= SetRequest_n t < 2 ^ 63).
Proof.
  unfold NewGetRequest, NewPullRequest, NewPrepareRequest,
    NewAcceptRequest, NewSetRequest.
  split; [|split; [|split; [|split]]]; intros t.
  all: case_bool_decide as Hc; [done|]; case_bool_decide as Hl; [done|].
  all: destruct (args request) as [|a0 [|a1 [|a2 [|a3 rest]]]];
    simpl in Hl; try done; simpl;
    destruct (strconv.Atoi a0) as [n| |] eqn:Hn; simpl; try done;
    intros [= <-]; simpl; by apply (Atoi_range a0).
Qed.

Lemma builders_integer_in_range_witness :
  - 2 ^ 63 <= 9223372036854775807 < 2 ^ 63.
Proof.
  apply (proj1 (builders_integer_in_range
                  {| ctx := ctx_nil; cmd := "get";
                     args := ["9223372036854775807"] |})
           {| GetRequest_Request :=
                {| ctx := ctx_nil; cmd := "get";
                   args := ["9223372036854775807"] |};
              GetRequest_n := 9223372036854775807 |}).
  reflexivity.
Defined.

(** X10: neither the parser nor a builder ever indexes a slice out of
    range: [parsed[0]] and [parsed[1]] in [parseRawMessage], and
    [request.args[0]], [[1]], [[2]] in the builders, are all read below a
    length that was tested first. *)
Theorem parser_and_builders_never_panic (message : string) (request : Request) :
  parseRawMessage message <> Panic
  /\ NewPushRequest request <> Panic
  /\ NewGetRequest request <> Panic
  /\ NewPullRequest request <> Panic
  /\ NewPrepareRequest request <> Panic
  /\ NewAcceptRequest request <> Panic
  /\ NewSetRequest request <> Panic.
Proof.
  split; [apply parseRawMessage_no_Panic|].
  unfold NewPushRequest, NewGetRequest, NewPullRequest, NewPrepareRequest,
    NewAcceptRequest, NewSetRequest.
  split; [|split; [|split; [|split; [|split]]]].
  all: case_bool_decide as Hc; [done|]; case_bool_decide as Hl; [done|].
  all: destruct (args request) as [|a0 [|a1 [|a2 [|a3 rest]]]];
    simpl in Hl; try done; simpl;
    try (pose proof (Atoi_no_Panic a0);
         destruct (strconv.Atoi a0) as [n| |]; simpl); done.
Qed.

(** ** The dispatcher: what reaches the operations *)

Lemma parseRawMessage_Join (token : string) (l : list string) :
  token ∈ availableCmds -> l <> [] -> Forall spaceless l ->
  parseRawMessage (strings.Join (token :: l) space)
  = Ok {| ctx := ctx_nil; cmd := token; args := l |}.
Proof.
  intros Hin Hne Hall. destruct l as [|t l]; [done|].
  change (strings.Join (token :: t :: l) space)
    with (token +:+ String space (strings.Join (t :: l) space)).
  rewrite parseRawMessage_token by done. by rewrite Split_Join.
Qed.

(** The typed request of the build step embeds the request it was built
    from, and its values are arguments of that request. *)
Lemma buildCall_request (request : Request) (call : Call) :
  buildCall request = Ok call ->
  (call = CallStatus \/ Call_request call = Some request)
  /\ Forall (fun x => x ∈ args request) (Call_values call).
Proof.
  unfold buildCall, NewPushRequest, NewGetRequest, NewPullRequest,
    NewSetRequest, NewPrepareRequest, NewAcceptRequest.
  repeat case_decide; try done.
  all: try (intros [= <-]; split; [by left|constructor]).
  all: case_bool_decide as Hc; [done|]; case_bool_decide as Hl; [done|].
  all: destruct (args request) as [|a0 [|a1 [|a2 [|a3 rest]]]] eqn:Ha;
    simpl in Hl; try done; simpl;
    try (destruct (strconv.Atoi a0) as [n| |]; simpl; try done);
    intros [= <-]; simpl; (split; [by right|]);
    repeat constructor; set_solver.
Qed.

Lemma parseRawMessage_args_length (message : string) (r : Request) :
  parseRawMessage message = Ok r ->
  length (args r) = Nat.max 1 (strings.Count message space).
Proof.
  intros Hr. apply parseRawMessage_Ok in Hr as (_ & _ & ->).
  rewrite Split_length, (Count_leadingToken_remainder message).
  unfold remainder.
  destruct (strings.cut message space) as [[a b]|]; [lia|reflexivity].
Qed.

Lemma parseRawMessage_args_spaceless (message : string) (r : Request) :
  parseRawMessage message = Ok r -> Forall spaceless (args r).
Proof.
  intros Hr. apply parseRawMessage_Ok in Hr as (_ & _ & ->).
  apply Split_Forall_sepfree.
Qed.

(** The operation recorded by a run of [Process] on the instrumented
    handler comes from the build step on the parsed request. *)
Lemma Process_traced_call
    {World ServerResponse : Type} (h : Handler World ServerResponse)
    (ctx0 : Context) (message : ServerRequest) (response : ServerResponse)
    (w : World) (call : Call) :
  (Process (traced h) ctx0 message response (w, [])).2.2 = [call] ->
  exists parsed,
    parseRawMessage (Message message) = Ok parsed
    /\ buildCall {| ctx := ctx0; cmd := cmd parsed; args := args parsed |}
       = Ok call.
Proof.
  rewrite Process_dispatch. unfold orReturn.
  destruct (parseRawMessage (Message message)) as [parsed|e|]; [|done|done].
  destruct (buildCall _) as [call'|e|] eqn:Hb; [|done|done].
  rewrite invoke_traced. destruct (invoke h call' response w).
  simpl. intros [= ->]. eauto.
Qed.

(** X11: what [Process] hands to the operation it invokes.  The
    operation is the one of the parsed command; unless it is Status, its
    typed request embeds the caller's context and the command and
    arguments exactly as parsed from the line; and the values it carries
    ([v] of Push, [id] and [v] of Accept and Set) are arguments of the
    line and contain no space. *)
Theorem Process_operation_request
    {World ServerResponse : Type} (h : Handler World ServerResponse)
    (ctx0 : Context) (message : ServerRequest) (response : ServerResponse)
    (w : World) (call : Call) :
  (Process (traced h) ctx0 message response (w, [])).2.2 = [call] ->
  exists parsed,
    parseRawMessage (Message message) = Ok parsed
    /\ Call_cmd call = cmd parsed
    /\ (call = CallStatus
        \/ Call_request call
           = Some {| ctx := ctx0; cmd := cmd parsed; args := args parsed |})
    /\ Forall (fun x => x ∈ args parsed /\ spaceless x) (Call_values call).
Proof.
  intros Ht. apply Process_traced_call in Ht as (parsed & Hp & Hb).
  exists parsed. split; [done|].
  split; [by apply buildCall_cmd in Hb|].
  apply buildCall_request in Hb as [Hreq Hval]. split; [done|].
  pose proof (parseRawMessage_args_spaceless _ _ Hp) as Hsp.
  rewrite Forall_forall in Hsp.
  eapply Forall_impl; [exact Hval|]. simpl. intros x Hx. split; [done|].
  by apply Hsp.
Qed.

Lemma Process_operation_request_witness :
  exists parsed,
    parseRawMessage "accept 3 node val" = Ok parsed
    /\ client.CmdAccept = cmd parsed
    /\ (CallAccept
          {| AcceptRequest_Request :=
               {| ctx := ctx_handle 1; cmd := "accept";
                  args := ["3"; "node"; "val"] |};
             AcceptRequest_n := 3; AcceptRequest_id := "node";
             AcceptRequest_v := "val" |} = CallStatus
        \/ Some {| ctx := ctx_handle 1; cmd := "accept";
                   args := ["3"; "node"; "val"] |}
           = Some {| ctx := ctx_handle 1; cmd := cmd parsed;
                     args := args parsed |})
    /\ Forall (fun x => x ∈ args parsed /\ spaceless x) ["node"; "val"].
Proof.
  exact (Process_operation_request idle (ctx_handle 1)
           (msg "accept 3 node val") tt tt
           (CallAccept
              {| AcceptRequest_Request :=
                   {| ctx := ctx_handle 1; cmd := "accept";
                      args := ["3"; "node"; "val"] |};
                 AcceptRequest_n := 3; AcceptRequest_id := "node";
                 AcceptRequest_v := "val" |}) eq_refl).
Defined.

(** X12: [Process] invokes Accept or Set only on a line with exactly
    three spaces: one more or one fewer, a trailing or a doubled space
    included, and the line is refused before any operation. *)
Theorem Process_accept_set_three_spaces
    {World ServerResponse : Type} (h : Handler World ServerResponse)
    (ctx0 : Context) (message : ServerRequest) (response : ServerResponse)
    (w : World) (call : Call) :
  (Process (traced h) ctx0 message response (w, [])).2.2 = [call] ->
  Call_cmd call = client.CmdAccept \/ Call_cmd call = client.CmdSet ->
  strings.Count (Message message) space = 3%nat.
Proof.
  intros Ht Hcmd. apply Process_traced_call in Ht as (parsed & Hp & Hb).
  apply parseRawMessage_args_length in Hp.
  assert (length (args parsed) = 3%nat) as Hlen; [|lia].
  revert Hb. unfold buildCall.
  repeat case_decide;
    try (intros [= <-]; destruct Hcmd; discriminate);
    try (destruct (NewPushRequest _); simpl; intros [= <-];
         destruct Hcmd; discriminate);
    try (destruct (NewGetRequest _); simpl; intros [= <-];
         destruct Hcmd; discriminate);
    try (destruct (NewPullRequest _); simpl; intros [= <-];
         destruct Hcmd; discriminate);
    try (destruct (NewPrepareRequest _); simpl; intros [= <-];
         destruct Hcmd; discriminate);
    try done.
  all: unfold NewSetRequest, NewAcceptRequest;
    case_bool_decide; [done|]; case_bool_decide as Hl; [done|];
    intros _; exact Hl.
Qed.

Lemma Process_accept_set_three_spaces_witness :
  strings.Count "set 1 a b" space = 3%nat.
Proof.
  apply (Process_accept_set_three_spaces idle ctx_nil (msg "set 1 a b") tt tt
           (CallSet {| SetRequest_Request :=
                         {| ctx := ctx_nil; cmd := "set";
                            args := ["1"; "a"; "b"] |};
                       SetRequest_n := 1; SetRequest_id := "a";
                       SetRequest_v := "b" |})).
  - reflexivity.
  - right. reflexivity.
Defined.

(** The errors of the build step on a request whose command is known. *)
Lemma buildCall_Err_kind (request : Request) (e : error) :
  cmd request ∈ availableCmds -> buildCall request = Err e ->
  e = ErrIncorrectCmd
  \/ exists a0 rest,
       args request = a0 :: rest /\ strconv.Atoi a0 = Err e
       /\ cmd request <> client.CmdPush /\ cmd request <> client.CmdStatus.
Proof.
  intros Hin. unfold buildCall, NewPushRequest, NewGetRequest,
    NewPullRequest, NewSetRequest, NewPrepareRequest, NewAcceptRequest.
  repeat case_decide;
    try (exfalso; apply availableCmds_elem in Hin; by intuition).
  all: destruct (args request) as [|a0 [|a1 [|a2 [|a3 l]]]];
    repeat (case_bool_decide; simpl in *; try done);
    try (destruct (strconv.Atoi a0) eqn:Hn; simpl);
    try done; intros [= <-];
    first [ by left
          | right; do 2 eexists; repeat split; try done;
            unfold client.CmdPush, client.CmdGet, client.CmdPull,
              client.CmdStatus, client.CmdSet, client.CmdPrepare,
              client.CmdAccept in *; congruence ].
Qed.

(** X13: the errors [Process] produces itself.  When it returns without
    having invoked an operation, the world is as it was and the error is
    [ErrIncorrectCmd], or it is the error of [strconv.Atoi] on the first
    argument of a line whose command is neither push nor status. *)
Theorem Process_own_errors
    {World ServerResponse : Type} (h : Handler World ServerResponse)
    (ctx0 : Context) (message : ServerRequest) (response : ServerResponse)
    (w : World) :
  (Process (traced h) ctx0 message response (w, [])).2.2 = [] ->
  exists e,
    Process (traced h) ctx0 message response (w, []) = (Err e, (w, []))
    /\ (e = ErrIncorrectCmd
        \/ exists parsed a0 rest,
             parseRawMessage (Message message) = Ok parsed
             /\ args parsed = a0 :: rest /\ strconv.Atoi a0 = Err e
             /\ cmd parsed <> client.CmdPush
             /\ cmd parsed <> client.CmdStatus).
Proof.
  rewrite Process_dispatch. unfold orReturn.
  pose proof (parseRawMessage_unfold (Message message)) as Hp.
  pose proof (parseRawMessage_no_Panic (Message message)) as Hnp.
  destruct (parseRawMessage (Message message)) as [parsed|e|] eqn:Hparse;
    [| |done].
  - apply parseRawMessage_Ok in Hparse as (Hin & _ & _).
    set (request := {| ctx := ctx0; cmd := cmd parsed;
                       args := args parsed |}).
    pose proof (buildCall_Err_kind request) as He.
    pose proof (buildCall_no_Panic request) as Hb.
    destruct (buildCall request) as [call|e|]; [| |done].
    + rewrite invoke_traced.
      destruct (invoke h call response w). simpl. discriminate.
    + intros _. exists e. split; [done|].
      destruct (He e Hin eq_refl) as [->|(a0 & rest & Ha & Hn & H1 & H2)];
        [by left|].
      right. exists parsed, a0, rest. done.
  - intros _. exists e. split; [done|]. left.
    revert Hp. case_bool_decide; [done|]. by intros [= ->].
Qed.

Lemma Process_own_errors_witness :
  exists e,
    Process (traced idle) ctx_nil (msg "pull x") tt (tt, [])
    = (Err e, (tt, []))
    /\ (e = ErrIncorrectCmd
        \/ exists parsed a0 rest,
             parseRawMessage "pull x" = Ok parsed
             /\ args parsed = a0 :: rest /\ strconv.Atoi a0 = Err e
             /\ cmd parsed <> client.CmdPush
             /\ cmd parsed <> client.CmdStatus).
Proof.
  exact (Process_own_errors idle ctx_nil (msg "pull x") tt tt eq_refl).
Defined.

(** X14: a well-formed accept or set line reaches its operation with the
    decoded fields.  For space-free [a0], [id] and [v], with [a0] read by
    [strconv.Atoi] as [n], [Process] on ["accept a0 id v"] is the call of
    Accept on [(n, id, v)], and on ["set a0 id v"] the call of Set, the
    typed request embedding the caller's context and the three
    arguments. *)
Theorem Process_accept_set_line
    {World ServerResponse : Type} (h : Handler World ServerResponse)
    (ctx0 : Context) (a0 id v address name : string) (n : Z)
    (response : ServerResponse) (w : World) :
  spaceless a0 -> spaceless id -> spaceless v -> strconv.Atoi a0 = Ok n ->
  Process h ctx0
    {| Message := strings.Join ["accept"; a0; id; v] space;
       Address := address; Name := name |} response w
  = Accept h
      {| AcceptRequest_Request :=
           {| ctx := ctx0; cmd := "accept"; args := [a0; id; v] |};
         AcceptRequest_n := n; AcceptRequest_id := id;
         AcceptRequest_v := v |} response w
  /\ Process h ctx0
       {| Message := strings.Join ["set"; a0; id; v] space;
          Address := address; Name := name |} response w
     = Set_ h
         {| SetRequest_Request :=
              {| ctx := ctx0; cmd := "set"; args := [a0; id; v] |};
            SetRequest_n := n; SetRequest_id := id; SetRequest_v := v |}
         response w.
Proof.
  intros H0 H1 H2 Hn. unfold Process. cbn [Message].
  assert (Hall : Forall spaceless [a0; id; v]) by (by repeat constructor).
  rewrite !parseRawMessage_Join
    by (try apply availableCmds_elem; try done; auto 10).
  unfold orReturn, NewAcceptRequest, NewSetRequest. simpl.
  by rewrite Hn.
Qed.

Lemma Process_accept_set_line_witness :
  Process (traced idle) (ctx_handle 2) (msg "accept -5 n1 v1") tt (tt, [])
  = (Ok tt,
     (tt, [CallAccept
             {| AcceptRequest_Request :=
                  {| ctx := ctx_handle 2; cmd := "accept";
                     args := ["-5"; "n1"; "v1"] |};
                AcceptRequest_n := -5; AcceptRequest_id := "n1";
                AcceptRequest_v := "v1" |}])).
Proof.
  exact (proj1 (Process_accept_set_line (traced idle) (ctx_handle 2)
                  "-5" "n1" "v1" "127.0.0.1:1" "client" (-5) tt (tt, [])
                  eq_refl eq_refl eq_refl eq_refl)).
Defined.

(** X15: a get, pull or prepare line reaches its operation with the
    integer of its first argument, and whatever arguments follow are
    ignored by the decoding (they stay in the embedded request).  For a
    space-free [a0] read by [strconv.Atoi] as [n], negative or not, and
    any further space-free arguments [extra], [Process] on
    ["get a0 extra..."] is the call of Get on [n]; likewise for pull and
    prepare. *)
Theorem Process_get_pull_prepare_line
    {World ServerResponse : Type} (h : Handler World ServerResponse)
    (ctx0 : Context) (a0 address name : string) (extra : list string)
    (n : Z) (response : ServerResponse) (w : World) :
  spaceless a0 -> Forall spaceless extra -> strconv.Atoi a0 = Ok n ->
  Process h ctx0
    {| Message := strings.Join ("get" :: a0 :: extra) space;
       Address := address; Name := name |} response w
  = Get h {| GetRequest_Request :=
               {| ctx := ctx0; cmd := "get"; args := a0 :: extra |};
             GetRequest_n := n |} response w
  /\ Process h ctx0
       {| Message := strings.Join ("pull" :: a0 :: extra) space;
          Address := address; Name := name |} response w
     = Pull h {| PullRequest_Request :=
                   {| ctx := ctx0; cmd := "pull"; args := a0 :: extra |};
                 PullRequest_n := n |} response w
  /\ Process h ctx0
       {| Message := strings.Join ("prepare" :: a0 :: extra) space;
          Address := address; Name := name |} response w
     = Prepare h
         {| PrepareRequest_Request :=
              {| ctx := ctx0; cmd := "prepare"; args := a0 :: extra |};
            PrepareRequest_n := n |} response w.
Proof.
  intros H0 Hextra Hn. unfold Process. cbn [Message].
  assert (Hall : Forall spaceless (a0 :: extra)) by (by constructor).
  rewrite !parseRawMessage_Join
    by (try apply availableCmds_elem; try done; auto 10).
  unfold orReturn, NewGetRequest, NewPullRequest, NewPrepareRequest. simpl.
  by rewrite Hn.
Qed.

Lemma Process_get_pull_prepare_line_witness :
  Process (traced idle) ctx_nil (msg "get -1 and more") tt (tt, [])
  = (Ok tt,
     (tt, [CallGet {| GetRequest_Request :=
                        {| ctx := ctx_nil; cmd := "get";
                           args := ["-1"; "and"; "more"] |};
                      GetRequest_n := -1 |}])).
Proof.
  exact (proj1 (Process_get_pull_prepare_line (traced idle) ctx_nil
                  "-1" "127.0.0.1:1" "client" ["and"; "more"] (-1) tt
                  (tt, []) eq_refl
                  ltac:(repeat constructor) eq_refl)).
Defined.

(** X16: a pushed value is the first word only.  For a space-free [a0]
    and any further space-free words [extra], [Process] on
    ["push a0 extra..."] is the call of Push with [v = a0]: what follows
    the first space after the value is split off as further arguments and
    is no part of [v]. *)
Theorem Process_push_line
    {World ServerResponse : Type} (h : Handler World ServerResponse)
    (ctx0 : Context) (a0 address name : string) (extra : list string)
    (response : ServerResponse) (w : World) :
  spaceless a0 -> Forall spaceless extra ->
  Process h ctx0
    {| Message := strings.Join ("push" :: a0 :: extra) space;
       Address := address; Name := name |} response w
  = Push h {| PushRequest_Request :=
                {| ctx := ctx0; cmd := "push"; args := a0 :: extra |};
              PushRequest_v := a0 |} response w.
Proof.
  intros H0 Hextra. unfold Process. cbn [Message].
  assert (Hall : Forall spaceless (a0 :: extra)) by (by constructor).
  rewrite parseRawMessage_Join
    by (try apply availableCmds_elem; try done; auto 10).
  reflexivity.
Qed.

Lemma Process_push_line_witness :
  Process (traced idle) ctx_nil (msg "push hello world") tt (tt, [])
  = (Ok tt,
     (tt, [CallPush {| PushRequest_Request :=
                         {| ctx := ctx_nil; cmd := "push";
                            args := ["hello"; "world"] |};
                       PushRequest_v := "hello" |}])).
Proof.
  exact (Process_push_line (traced idle) ctx_nil "hello" "127.0.0.1:1"
           "client" ["world"] tt (tt, []) eq_refl
           ltac:(repeat constructor)).
Defined.

(** X17: two lines that parse to the same request are the same line, or
    differ by the single space that may follow a bare command. *)
Theorem parseRawMessage_injective (m1 m2 : string) (r : Request) :
  parseRawMessage m1 = Ok r -> parseRawMessage m2 = Ok r ->
  m1 = m2 \/ m2 = m1 +:+ " " \/ m1 = m2 +:+ " ".
Proof.
  intros H1 H2.
  rewrite parseRawMessage_unfold in H1. rewrite parseRawMessage_unfold in H2.
  case_bool_decide as Hin1; [|done]. case_bool_decide as Hin2; [|done].
  injection H1 as <-. injection H2 as Htok Hargs.
  assert (Hrem : remainder m2 = remainder m1).
  { by rewrite <- (Join_Split space (remainder m1)),
       <- (Join_Split space (remainder m2)), Hargs. }
  clear Hargs Hin1 Hin2.
  destruct (leadingToken_remainder m1) as [_ E1].
  destruct (leadingToken_remainder m2) as [_ E2].
  rewrite Htok, Hrem in E2.
  remember (leadingToken m1) as tok. remember (remainder m1) as rem.
  clear Heqtok Heqrem Htok Hrem.
  destruct E1 as [[-> ->]| ->], E2 as [[-> ?]| ->]; subst; auto.
Qed.

Lemma parseRawMessage_injective_witness :
  "status" = "status " \/ "status " = "status" +:+ " "
  \/ "status" = "status " +:+ " ".
Proof.
  exact (parseRawMessage_injective "status" "status "
           {| ctx := ctx_nil; cmd := "status"; args := [EmptyString] |}
           eq_refl eq_refl).
Defined.
